(** * Verification transactions of matrix-js-sdk: [crypto/verification/Base]

    A shallow embedding of the [VerificationBase] class (the per-transaction
    state machine behind interactive device verification), of its batch
    helper [_verifyKeys] and of the store errors of [errors.js], together
    with the properties of the natural-language specification that concern
    them and further properties of the code.

    Modelling conventions.
    - The JavaScript object is the record [VerificationBase]; a field that is
      [undefined] or [null] in JavaScript is [None] here.
    - Promises live in a store ([promises]): a promise is its index in the
      store, and the [resolve]/[reject] closures of a promise are represented
      by that index.  Settling a promise that is already settled does nothing,
      as in JavaScript.
    - Timers handed out by [setTimeout] are numbered; [armed] lists the timers
      whose callback can still run.
    - Everything the object does to its collaborators (channel, event emitter,
      verification request, secret storage) is appended to [trace].
    - A method is a computation in the monad [M]: it reads and writes the
      state and either returns or throws; the state written before a throw
      is kept, as in JavaScript.
    - [logger] output is not part of the model, except for the warning of
      [_verifyKeys]. *)

From stdpp Require Import base option numbers list strings.
From Stdlib Require Import Bool Lia.

Open Scope string_scope.
Open Scope list_scope.

(** ** Events, causes and promises *)

(** The content of a protocol event, restricted to the fields the class
    reads. *)
Record Content := mkContent {
  code : option string;
  reason : option string;
  body : option string;
  from_device : option string }.

(** A [MatrixEvent], seen through its [getType], [getSender] and
    [getContent] accessors. *)
Record MatrixEvent := mkMatrixEvent {
  getType : string;
  getSender : option string;
  getContent : Content }.

(** The values passed to [cancel], thrown, or used to reject a promise. *)
Inductive Cause : Type :=
| timeoutException                            (* the module-level sentinel *)
| CauseEvent (e : MatrixEvent)                (* [e instanceof MatrixEvent] *)
| CauseError (message : string)               (* [new Error(message)] *)
| SwitchStartEventError (startEvent : MatrixEvent)
| TypeError (message : string).               (* raised by the runtime *)


(** [Error.prototype.toString]: the name, then the message when it is not
    empty.  [SwitchStartEventError] calls [super()] without a message. *)
Definition error_string (name message : string) : string :=
  if String.eqb message "" then name else name +:+ ": " +:+ message.

Definition toString (e : Cause) : string :=
  match e with
  | timeoutException => error_string "Error" "Verification timed out"
  | CauseEvent _ => "[object Object]"
  | CauseError m => error_string "Error" m
  | SwitchStartEventError _ => error_string "Error" ""
  | TypeError m => error_string "TypeError" m
  end.

(** JavaScript truthiness of an optional string, [a || b] on strings, and
    the text a template literal gives for an optional string. *)
Definition truthy (o : option string) : bool :=
  match o with
  | Some s => negb (String.eqb s "")
  | None => false
  end.

Definition js_or (o : option string) (d : string) : string :=
  match o with
  | Some s => if String.eqb s "" then d else s
  | None => d
  end.

Definition js_or_opt (o1 o2 : option string) : option string :=
  if truthy o1 then o1 else o2.

Definition template (o : option string) : string :=
  match o with
  | Some s => s
  | None => "undefined"
  end.

Definition isSome {A} (o : option A) : bool :=
  match o with
  | Some _ => true
  | None => false
  end.

Abbreviation PromiseId := nat.
Abbreviation TimerId := nat.

Inductive PromiseState : Type :=
| Pending
| Resolved (value : option MatrixEvent)
| Rejected (cause : Cause).


(** What the transaction does to the outside world. *)
Inductive Effect : Type :=
| Send (type : string) (content : Content)    (* [this._channel.send] *)
| Emit (name : string) (arg : Cause)          (* [this.emit] *)
| SetTimeout (h : TimerId) (ms : N)
| ClearTimeout (h : TimerId)
| OnVerifierFinished                          (* [this.request.onVerifierFinished()] *)
| DoVerification                              (* [this._doVerification()] is started *)
| CrossSigningKeysRequested (device : option string).


(** ** The object and the state around it *)

Record VerificationBase := mkVerificationBase {
  userId : option string;
  deviceId : option string;
  startEvent : option MatrixEvent;
  request : bool;                  (* whether a request object was given *)
  cancelled : bool;
  _done : bool;
  _promise : option PromiseId;
  _transactionTimeoutTimer : option TimerId;
  _expectedEvent : option string;
  _resolveEvent : option PromiseId;
  _rejectEvent : option PromiseId;
  _resolve : option PromiseId;
  _reject : option PromiseId;
  _started : bool }.

Record State := mkState {
  this : VerificationBase;
  promises : list PromiseState;
  next_timer : TimerId;
  armed : list TimerId;
  trace : list Effect }.

(** What a subclass and the collaborators contribute.  [newTimeoutError]
    comes from the module [./Error], whose source is not part of the
    excerpt: it is a parameter. *)
Record Env := mkEnv {
  canSwitchStartEvent : MatrixEvent → bool;
  hasDoVerification : bool;
  getUserId : string;              (* [this._baseApis.getUserId()] *)
  getDeviceId : string;            (* [this._baseApis.getDeviceId()] *)
  newTimeoutError : MatrixEvent }.

(** The base class itself: no [_doVerification], and [canSwitchStartEvent]
    answers [false]. *)
Definition base_class (uid did : string) (te : MatrixEvent) : Env :=
  {| canSwitchStartEvent := λ _, false;
     hasDoVerification := false;
     getUserId := uid;
     getDeviceId := did;
     newTimeoutError := te |}.

(** *** Field updates *)

Definition set_startEvent (v : option MatrixEvent) (o : VerificationBase) :=
  {| userId := userId o; deviceId := deviceId o; startEvent := v;
     request := request o; cancelled := cancelled o; _done := _done o;
     _promise := _promise o;
     _transactionTimeoutTimer := _transactionTimeoutTimer o;
     _expectedEvent := _expectedEvent o; _resolveEvent := _resolveEvent o;
     _rejectEvent := _rejectEvent o; _resolve := _resolve o;
     _reject := _reject o; _started := _started o |}.

Definition set_cancelled (v : bool) (o : VerificationBase) :=
  {| userId := userId o; deviceId := deviceId o; startEvent := startEvent o;
     request := request o; cancelled := v; _done := _done o;
     _promise := _promise o;
     _transactionTimeoutTimer := _transactionTimeoutTimer o;
     _expectedEvent := _expectedEvent o; _resolveEvent := _resolveEvent o;
     _rejectEvent := _rejectEvent o; _resolve := _resolve o;
     _reject := _reject o; _started := _started o |}.

Definition set_done (v : bool) (o : VerificationBase) :=
  {| userId := userId o; deviceId := deviceId o; startEvent := startEvent o;
     request := request o; cancelled := cancelled o; _done := v;
     _promise := _promise o;
     _transactionTimeoutTimer := _transactionTimeoutTimer o;
     _expectedEvent := _expectedEvent o; _resolveEvent := _resolveEvent o;
     _rejectEvent := _rejectEvent o; _resolve := _resolve o;
     _reject := _reject o; _started := _started o |}.

Definition set_promise (v : option PromiseId) (o : VerificationBase) :=
  {| userId := userId o; deviceId := deviceId o; startEvent := startEvent o;
     request := request o; cancelled := cancelled o; _done := _done o;
     _promise := v;
     _transactionTimeoutTimer := _transactionTimeoutTimer o;
     _expectedEvent := _expectedEvent o; _resolveEvent := _resolveEvent o;
     _rejectEvent := _rejectEvent o; _resolve := _resolve o;
     _reject := _reject o; _started := _started o |}.

Definition set_transactionTimeoutTimer (v : option TimerId) (o : VerificationBase) :=
  {| userId := userId o; deviceId := deviceId o; startEvent := startEvent o;
     request := request o; cancelled := cancelled o; _done := _done o;
     _promise := _promise o;
     _transactionTimeoutTimer := v;
     _expectedEvent := _expectedEvent o; _resolveEvent := _resolveEvent o;
     _rejectEvent := _rejectEvent o; _resolve := _resolve o;
     _reject := _reject o; _started := _started o |}.

Definition set_expectedEvent (v : option string) (o : VerificationBase) :=
  {| userId := userId o; deviceId := deviceId o; startEvent := startEvent o;
     request := request o; cancelled := cancelled o; _done := _done o;
     _promise := _promise o;
     _transactionTimeoutTimer := _transactionTimeoutTimer o;
     _expectedEvent := v; _resolveEvent := _resolveEvent o;
     _rejectEvent := _rejectEvent o; _resolve := _resolve o;
     _reject := _reject o; _started := _started o |}.

Definition set_resolveEvent (v : option PromiseId) (o : VerificationBase) :=
  {| userId := userId o; deviceId := deviceId o; startEvent := startEvent o;
     request := request o; cancelled := cancelled o; _done := _done o;
     _promise := _promise o;
     _transactionTimeoutTimer := _transactionTimeoutTimer o;
     _expectedEvent := _expectedEvent o; _resolveEvent := v;
     _rejectEvent := _rejectEvent o; _resolve := _resolve o;
     _reject := _reject o; _started := _started o |}.

Definition set_rejectEvent (v : option PromiseId) (o : VerificationBase) :=
  {| userId := userId o; deviceId := deviceId o; startEvent := startEvent o;
     request := request o; cancelled := cancelled o; _done := _done o;
     _promise := _promise o;
     _transactionTimeoutTimer := _transactionTimeoutTimer o;
     _expectedEvent := _expectedEvent o; _resolveEvent := _resolveEvent o;
     _rejectEvent := v; _resolve := _resolve o;
     _reject := _reject o; _started := _started o |}.

Definition set_resolve (v : option PromiseId) (o : VerificationBase) :=
  {| userId := userId o; deviceId := deviceId o; startEvent := startEvent o;
     request := request o; cancelled := cancelled o; _done := _done o;
     _promise := _promise o;
     _transactionTimeoutTimer := _transactionTimeoutTimer o;
     _expectedEvent := _expectedEvent o; _resolveEvent := _resolveEvent o;
     _rejectEvent := _rejectEvent o; _resolve := v;
     _reject := _reject o; _started := _started o |}.

Definition set_reject (v : option PromiseId) (o : VerificationBase) :=
  {| userId := userId o; deviceId := deviceId o; startEvent := startEvent o;
     request := request o; cancelled := cancelled o; _done := _done o;
     _promise := _promise o;
     _transactionTimeoutTimer := _transactionTimeoutTimer o;
     _expectedEvent := _expectedEvent o; _resolveEvent := _resolveEvent o;
     _rejectEvent := _rejectEvent o; _resolve := _resolve o;
     _reject := v; _started := _started o |}.

Definition set_started (v : bool) (o : VerificationBase) :=
  {| userId := userId o; deviceId := deviceId o; startEvent := startEvent o;
     request := request o; cancelled := cancelled o; _done := _done o;
     _promise := _promise o;
     _transactionTimeoutTimer := _transactionTimeoutTimer o;
     _expectedEvent := _expectedEvent o; _resolveEvent := _resolveEvent o;
     _rejectEvent := _rejectEvent o; _resolve := _resolve o;
     _reject := _reject o; _started := v |}.

Definition with_this (f : VerificationBase → VerificationBase) (s : State) : State :=
  {| this := f (this s); promises := promises s; next_timer := next_timer s;
     armed := armed s; trace := trace s |}.

Definition with_promises (f : list PromiseState → list PromiseState) (s : State) : State :=
  {| this := this s; promises := f (promises s); next_timer := next_timer s;
     armed := armed s; trace := trace s |}.

Definition with_armed (f : list TimerId → list TimerId) (s : State) : State :=
  {| this := this s; promises := promises s; next_timer := next_timer s;
     armed := f (armed s); trace := trace s |}.

Definition with_next_timer (n : TimerId) (s : State) : State :=
  {| this := this s; promises := promises s; next_timer := n;
     armed := armed s; trace := trace s |}.

Definition log (e : Effect) (s : State) : State :=
  {| this := this s; promises := promises s; next_timer := next_timer s;
     armed := armed s; trace := trace s ++ [e] |}.

(** ** The monad of methods *)

Inductive Completion (A : Type) : Type :=
| Normal (a : A)
| Throw (e : Cause).
Arguments Normal {A} a.
Arguments Throw {A} e.

(** A computation over a state of type [S]; the methods of the class run
    over [State]. *)
Definition Js (S A : Type) : Type := S → Completion A * S.

#[global] Instance Js_ret {S} : MRet (Js S) := λ A a s, (Normal a, s).

#[global] Instance Js_bind {S} : MBind (Js S) := λ A B k m s,
  match m s with
  | (Normal a, s') => k a s'
  | (Throw e, s') => (Throw e, s')
  end.

Definition ret {S A} (a : A) : Js S A := mret a.
Definition throw {S A} (e : Cause) : Js S A := λ s, (Throw e, s).
Definition get {S} : Js S S := λ s, (Normal s, s).
Definition modify {S} (f : S → S) : Js S unit := λ s, (Normal tt, f s).

Abbreviation M := (Js State).

(** The state a method leaves behind, and what it returned or threw. *)
Definition exec {S A} (m : Js S A) (s : S) : S := snd (m s).
Definition outcome {S A} (m : Js S A) (s : S) : Completion A := fst (m s).

(** *** Runtime primitives *)

(** [new Promise(executor)]: a fresh pending promise. *)
Definition new_Promise : M PromiseId :=
  s ← get;
  modify (with_promises (λ ps, ps ++ [Pending]));;
  ret (length (promises s)).

(** [Promise.reject(e)]: a fresh promise that is already rejected. *)
Definition Promise_reject (e : Cause) : M PromiseId :=
  s ← get;
  modify (with_promises (λ ps, ps ++ [Rejected e]));;
  ret (length (promises s)).

(** Calling the [resolve] or [reject] function of promise [p]: only a
    pending promise changes. *)
Definition settle (p : PromiseId) (v : PromiseState) (ps : list PromiseState)
  : list PromiseState :=
  match ps !! p with
  | Some Pending => <[p := v]> ps
  | _ => ps
  end.

Definition promise_resolve (p : PromiseId) (v : option MatrixEvent) : M unit :=
  modify (with_promises (settle p (Resolved v))).

Definition promise_reject (p : PromiseId) (e : Cause) : M unit :=
  modify (with_promises (settle p (Rejected e))).

Definition setTimeout (ms : N) : M TimerId :=
  s ← get;
  let h := next_timer s in
  modify (with_next_timer (S h));;
  modify (with_armed (λ l, h :: l));;
  modify (log (SetTimeout h ms));;
  ret h.

Definition clearTimeout (h : TimerId) : M unit :=
  modify (with_armed (filter (λ x, x ≠ h)));;
  modify (log (ClearTimeout h)).

Definition modify_this (f : VerificationBase → VerificationBase) : M unit :=
  modify (with_this f).


(** ** The methods of [VerificationBase] *)

Definition cancel_type : string := "m.key.verification.cancel".
Definition done_type : string := "m.key.verification.done".

(** [new VerificationBase(channel, baseApis, userId, deviceId, startEvent,
    request)], in a runtime that has created no promise or timer yet. *)
Definition constructor (uid did : option string) (start : option MatrixEvent)
    (req : bool) : State :=
  {| this := {| userId := uid; deviceId := did; startEvent := start;
                request := req; cancelled := false; _done := false;
                _promise := None; _transactionTimeoutTimer := None;
                _expectedEvent := None; _resolveEvent := None;
                _rejectEvent := None; _resolve := None; _reject := None;
                _started := false |};
     promises := []; next_timer := 0; armed := []; trace := [] |}.

Section Methods.

Context (env : Env).

Definition initiatedByMe (o : VerificationBase) : bool :=
  match startEvent o with
  | None => true
  | Some ev =>
      bool_decide (getSender ev = Some (getUserId env))
      && bool_decide (from_device (getContent ev) = Some (getDeviceId env))
  end.

Definition _endTimer : M unit :=
  s ← get;
  match _transactionTimeoutTimer (this s) with
  | Some h =>
      clearTimeout h;;
      modify_this (set_transactionTimeoutTimer None)
  | None => ret tt
  end.

Definition _send (type : string) (uncompletedContent : Content) : M unit :=
  modify (log (Send type uncompletedContent)).

Definition emit (name : string) (arg : Cause) : M unit :=
  modify (log (Emit name arg)).

(** The closures stored in [this._resolve] and [this._reject] by
    [verify]: they mark the transaction done, stop the timer and settle
    the promise [verify] returned. *)
Definition call_resolve (p : PromiseId) : M unit :=
  modify_this (set_done true);;
  _endTimer;;
  promise_resolve p None.

Definition call_reject (p : PromiseId) (e : Cause) : M unit :=
  modify_this (set_done true);;
  _endTimer;;
  promise_reject p e.

(** [cancel].  When the cause is a cancellation event of another sender,
    the code fills in [code] and [reason] in the content object of that
    event before sending it: the event the cause refers to is changed, and
    it is the changed event that is then passed to the reject closure and
    to the listeners. *)
Definition cancel (e : Cause) : M unit :=
  _endTimer;;
  s ← get;
  if negb (_done (this s)) then
    modify_this (set_cancelled true);;
    e ← (if truthy (userId (this s)) && truthy (deviceId (this s)) then
           match e with
           | timeoutException =>
               let timeoutEvent := newTimeoutError env in
               _send (getType timeoutEvent) (getContent timeoutEvent);;
               ret e
           | CauseEvent ev =>
               if negb (bool_decide (getSender ev = userId (this s))) then
                 let content := getContent ev in
                 if String.eqb (getType ev) cancel_type then
                   let content' :=
                     {| code := Some (js_or (code content) "m.unknown");
                        reason := Some (js_or (js_or_opt (reason content)
                                                         (body content))
                                              "Unknown reason");
                        body := body content;
                        from_device := from_device content |} in
                   _send cancel_type content';;
                   ret (CauseEvent {| getType := getType ev;
                                      getSender := getSender ev;
                                      getContent := content' |})
                 else
                   _send cancel_type
                     {| code := Some "m.unknown";
                        reason := Some (js_or (body content) "Unknown reason");
                        body := None; from_device := None |};;
                   ret e
               else ret e
           | _ =>
               _send cancel_type
                 {| code := Some "m.unknown"; reason := Some (toString e);
                    body := None; from_device := None |};;
               ret e
           end
         else ret e);
    s ← get;
    match _promise (this s) with
    | Some _ =>
        match _reject (this s) with
        | Some p => call_reject p e
        | None => ret tt
        end
    | None =>
        p ← Promise_reject e;
        modify_this (set_promise (Some p))
    end;;
    emit "cancel" e
  else ret tt.

Definition _resetTimer : M unit :=
  s ← get;
  match _transactionTimeoutTimer (this s) with
  | Some h => clearTimeout h
  | None => ret tt
  end;;
  h ← setTimeout (10 * 60 * 1000)%N;
  modify_this (set_transactionTimeoutTimer (Some h)).

(** The callback [_resetTimer] hands to [setTimeout]. *)
Definition timeout_callback : M unit :=
  s ← get;
  if negb (_done (this s)) && negb (cancelled (this s))
  then cancel timeoutException
  else ret tt.

Definition _waitForEvent (type : string) : M PromiseId :=
  s ← get;
  if _done (this s) then
    Promise_reject (CauseError "Verification is already done")
  else
    modify_this (set_expectedEvent (Some type));;
    p ← new_Promise;
    modify_this (set_resolveEvent (Some p));;
    modify_this (set_rejectEvent (Some p));;
    ret p.

Definition switchStartEvent (event : MatrixEvent) : M unit :=
  if canSwitchStartEvent env event then
    s ← get;
    match _rejectEvent (this s) with
    | Some reject =>
        modify_this (set_rejectEvent None);;
        promise_reject reject (SwitchStartEventError event)
    | None => modify_this (set_startEvent (Some event))
    end
  else ret tt.

Definition handleEvent (e : MatrixEvent) : M unit :=
  s ← get;
  if _done (this s) then ret tt
  else if bool_decide (Some (getType e) = _expectedEvent (this s)) then
    if negb (bool_decide (_expectedEvent (this s) = Some done_type)) then
      modify_this (set_expectedEvent None);;
      modify_this (set_rejectEvent None);;
      _resetTimer;;
      match _resolveEvent (this s) with
      | Some w => promise_resolve w (Some e)
      | None => throw (TypeError "this._resolveEvent is not a function")
      end
    else ret tt
  else if String.eqb (getType e) cancel_type then
    let reject := _reject (this s) in
    modify_this (set_reject None);;
    match reject with
    | Some p =>
        let content := getContent e in
        call_reject p
          (CauseError ("Other side cancelled verification because "
                       +:+ template (reason content)
                       +:+ " (" +:+ template (code content) +:+ ")"))
    | None => ret tt
    end
  else if truthy (_expectedEvent (this s)) then
    let exception :=
      CauseError ("Unexpected message: expecting "
                  +:+ template (_expectedEvent (this s))
                  +:+ " but got " +:+ getType e) in
    modify_this (set_expectedEvent None);;
    match _rejectEvent (this s) with
    | Some reject =>
        modify_this (set_rejectEvent None);;
        promise_reject reject exception
    | None => ret tt
    end;;
    cancel exception
  else ret tt.

(** [done]: the cross-signing key request that follows a
    self-verification runs detached from the caller; it is recorded as one
    effect, and the promise [done] returns for it stays pending here. *)
Definition done : M (option PromiseId) :=
  _endTimer;;
  s ← get;
  if negb (_done (this s)) then
    (if request (this s) then modify (log OnVerifierFinished)
     else throw (TypeError "Cannot read property 'onVerifierFinished' of undefined"));;
    match _resolve (this s) with
    | Some p => call_resolve p
    | None => throw (TypeError "this._resolve is not a function")
    end;;
    if negb (bool_decide (Some (getUserId env) = userId (this s))) then
      ret None
    else
      modify (log (CrossSigningKeysRequested (deviceId (this s))));;
      p ← new_Promise;
      ret (Some p)
  else ret None.

Definition verify : M PromiseId :=
  s ← get;
  match _promise (this s) with
  | Some p => ret p
  | None =>
      p ← new_Promise;
      modify_this (set_resolve (Some p));;
      modify_this (set_reject (Some p));;
      modify_this (set_promise (Some p));;
      s ← get;
      (if hasDoVerification env && negb (_started (this s)) then
         modify_this (set_started true);;
         _resetTimer;;
         modify (log DoVerification)
       else ret tt);;
      ret p
  end.

(** *** Sequences of calls

    What the application, the channel, the timer and the running
    [_doVerification] hook can do to a transaction.  The hook is not part
    of the class: its calls to [_waitForEvent] and its completion, which
    [verify] routes to [done] or [cancel], appear as operations. *)
Inductive Op : Type :=
| OpWaitForEvent (type : string)
| OpHandleEvent (e : MatrixEvent)
| OpSwitchStartEvent (e : MatrixEvent)
| OpVerify
| OpDone
| OpCancel (e : Cause)
| OpTimerFires (h : TimerId).

Definition step (op : Op) (s : State) : State :=
  match op with
  | OpWaitForEvent t => exec (_waitForEvent t) s
  | OpHandleEvent e => exec (handleEvent e) s
  | OpSwitchStartEvent e => exec (switchStartEvent e) s
  | OpVerify => exec verify s
  | OpDone => exec done s
  | OpCancel e => exec (cancel e) s
  | OpTimerFires h =>
      if bool_decide (h ∈ armed s)
      then exec timeout_callback (with_armed (filter (λ x, x ≠ h)) s)
      else s
  end.

Definition run (ops : list Op) (s : State) : State :=
  foldl (λ s op, step op s) s ops.

(** The states a transaction can be in: those a sequence of calls leads to
    from a freshly constructed object. *)
Definition reachable (s : State) : Prop :=
  ∃ uid did start req ops, s = run ops (constructor uid did start req).

End Methods.


(** ** Batch key verification: [_verifyKeys] *)

(** [keyId.split(':', 2)[1]]: the text between the first and the second
    colon, [undefined] when there is no colon. *)
Definition colon : Ascii.ascii := Ascii.ascii_of_nat 58.

Fixpoint up_to_colon (s : string) : string :=
  match s with
  | EmptyString => EmptyString
  | String c r => if Ascii.eqb c colon then EmptyString else String c (up_to_colon r)
  end.

Fixpoint after_colon (s : string) : option string :=
  match s with
  | EmptyString => None
  | String c r => if Ascii.eqb c colon then Some r else after_colon r
  end.

Definition split_colon_second (keyId : string) : option string :=
  up_to_colon <$> after_colon keyId.

(** What [crossSigningInfo.getId()] can answer: nothing, [null], or a
    key. *)
Inductive IdValue : Type :=
| id_undefined
| id_null
| id_string (id : string).

(** [crossSigningInfo.getId() === deviceId], where a key identifier
    without a colon gives [undefined] for the device id: two missing
    values are equal when both are [undefined]. *)
Definition id_is (id : IdValue) (deviceId : option string) : bool :=
  match id, deviceId with
  | id_undefined, None => true
  | id_string a, Some b => String.eqb a b
  | _, _ => false
  end.

(** The answer of a collaborator, as a step of a computation. *)
Definition answer {S A} (c : Completion A) : Js S A := λ s, (c, s).

Section VerifyKeys.

(** The collaborators of [_verifyKeys].  [DeviceInfo] and
    [CrossSigningInfo] are classes of other modules: the device type and
    [DeviceInfo.fromStorage] are parameters, and a stored cross-signing
    identity is represented by what its [getId()] answers.  A lookup
    answers [Normal] of what it found ([None] when nothing is stored) or
    [Throw] of the error raised on the way (by the lookup itself, by
    reaching it through [_baseApis], or by [getId()]); [fromStorage]
    answers the device it builds or the error it raised; the verifier and
    [setDeviceVerified] answer [Some] of the error when they throw or
    their promise rejects. *)
Context {DeviceInfo KeyInfo : Type}.
Context (getStoredDevice : string → option string → Completion (option DeviceInfo)).
Context (getStoredCrossSigningForUser : string → Completion (option IdValue)).
Context (fromStorage : list (string * option string) → option string
                       → Completion DeviceInfo).
Context (verifier : string → DeviceInfo → KeyInfo → option Cause).
Context (setDeviceVerified : string → option string → option Cause).

Inductive KeyEffect : Type :=
| VerifierCalled (keyId : string) (device : DeviceInfo) (keyInfo : KeyInfo)
| Warn (message : string)
| SetDeviceVerified (userId : string) (deviceId : option string).

Definition call_verifier (keyId : string) (device : DeviceInfo)
    (keyInfo : KeyInfo) : Js (list KeyEffect) unit :=
  modify (λ t, t ++ [VerifierCalled keyId device keyInfo]);;
  match verifier keyId device keyInfo with
  | Some e => throw e
  | None => ret tt
  end.

(** The first loop, over [Object.entries(keys)] in enumeration order;
    [verifiedDevices] is the array filled so far. *)
Fixpoint verify_each (userId : string) (entries : list (string * KeyInfo))
    (verifiedDevices : list (option string))
    : Js (list KeyEffect) (list (option string)) :=
  match entries with
  | [] => ret verifiedDevices
  | (keyId, keyInfo) :: rest =>
      let deviceId := split_colon_second keyId in
      device ← answer (getStoredDevice userId deviceId);
      match device with
      | Some device =>
          call_verifier keyId device keyInfo;;
          verify_each userId rest (verifiedDevices ++ [deviceId])
      | None =>
          crossSigningInfo ← answer (getStoredCrossSigningForUser userId);
          if match crossSigningInfo with
             | Some id => id_is id deviceId
             | None => false
             end
          then
            device ← answer (fromStorage [(keyId, deviceId)] deviceId);
            call_verifier keyId device keyInfo;;
            verify_each userId rest (verifiedDevices ++ [deviceId])
          else
            modify (λ t, t ++ [Warn ("verification: Could not find device "
                                     +:+ template deviceId +:+ " to verify")]);;
            verify_each userId rest verifiedDevices
      end
  end.

(** The second loop: one [setDeviceVerified] call per recorded device. *)
Fixpoint mark_each (userId : string) (verifiedDevices : list (option string))
    : Js (list KeyEffect) unit :=
  match verifiedDevices with
  | [] => ret tt
  | deviceId :: rest =>
      modify (λ t, t ++ [SetDeviceVerified userId deviceId]);;
      match setDeviceVerified userId deviceId with
      | Some e => throw e
      | None => mark_each userId rest
      end
  end.

Definition no_devices : Cause := CauseError "No devices could be verified".

Definition _verifyKeys (userId : string) (keys : list (string * KeyInfo))
    : Js (list KeyEffect) unit :=
  verifiedDevices ← verify_each userId keys [];
  if bool_decide (length verifiedDevices = 0) then throw no_devices
  else mark_each userId verifiedDevices.

(** *** The batch, described without the loops *)

(** What the two lookups give for a key identifier: the stored device,
    else the device synthesised for the user's cross-signing identity,
    else nothing; or the error of the collaborator that failed. *)
Definition find_device (userId keyId : string) : Completion (option DeviceInfo) :=
  let deviceId := split_colon_second keyId in
  match getStoredDevice userId deviceId with
  | Throw e => Throw e
  | Normal (Some device) => Normal (Some device)
  | Normal None =>
      match getStoredCrossSigningForUser userId with
      | Throw e => Throw e
      | Normal (Some id) =>
          if id_is id deviceId
          then match fromStorage [(keyId, deviceId)] deviceId with
               | Throw e => Throw e
               | Normal device => Normal (Some device)
               end
          else Normal None
      | Normal None => Normal None
      end
  end.

(** The device the verifier is run against for a key identifier, if
    any. *)
Definition device_for (userId keyId : string) : option DeviceInfo :=
  match find_device userId keyId with
  | Normal device => device
  | Throw _ => None
  end.

Definition resolves (userId : string) (entry : string * KeyInfo) : bool :=
  isSome (device_for userId entry.1).

(** A key is verified when it resolves and the verifier accepts it. *)
Definition verified (userId : string) (entry : string * KeyInfo) : bool :=
  match device_for userId entry.1 with
  | Some device => negb (isSome (verifier entry.1 device entry.2))
  | None => false
  end.

(** The device ids of the keys that resolve, in order. *)
Definition recorded (userId : string) (keys : list (string * KeyInfo))
    : list (option string) :=
  (λ entry, split_colon_second entry.1) <$> filter (λ entry, resolves userId entry = true) keys.

(** The first error of the first loop, if any: that of finding a device
    or of the verifier refusing a key. *)
Fixpoint first_failure (userId : string) (keys : list (string * KeyInfo))
    : option Cause :=
  match keys with
  | [] => None
  | entry :: rest =>
      match find_device userId entry.1 with
      | Throw e => Some e
      | Normal (Some device) =>
          match verifier entry.1 device entry.2 with
          | Some e => Some e
          | None => first_failure userId rest
          end
      | Normal None => first_failure userId rest
      end
  end.

Definition marks (t : list KeyEffect) : list (string * option string) :=
  omap (λ e, match e with SetDeviceVerified u d => Some (u, d) | _ => None end) t.

Definition warnings (t : list KeyEffect) : list string :=
  omap (λ e, match e with Warn m => Some m | _ => None end) t.

(** The error of the first recorded device that cannot be marked, and the
    devices [setDeviceVerified] is called for: those up to and including
    that one. *)
Fixpoint mark_failure (userId : string) (ds : list (option string)) : option Cause :=
  match ds with
  | [] => None
  | d :: rest =>
      match setDeviceVerified userId d with
      | Some e => Some e
      | None => mark_failure userId rest
      end
  end.

Fixpoint attempted (userId : string) (ds : list (option string)) : list (option string) :=
  match ds with
  | [] => []
  | d :: rest =>
      match setDeviceVerified userId d with
      | Some _ => [d]
      | None => d :: attempted userId rest
      end
  end.

(** The warnings for the keys that do not resolve. *)
Definition unresolved_warnings (userId : string) (keys : list (string * KeyInfo))
    : list string :=
  (λ entry, "verification: Could not find device "
            +:+ template (split_colon_second entry.1) +:+ " to verify")
  <$> filter (λ entry, resolves userId entry = false) keys.

(** The batch property as the specification words it: the "no devices"
    failure exactly when no key was verified, and success as soon as one
    was. *)
Definition stated_batch (userId : string) (keys : list (string * KeyInfo)) : Prop :=
  let r := _verifyKeys userId keys [] in
  (r.1 = Throw no_devices ↔ filter (λ entry, verified userId entry = true) keys = [])
  ∧ (filter (λ entry, verified userId entry = true) keys ≠ [] → r.1 = Normal tt).

End VerifyKeys.


(** ** What is observed of a trace *)

Definition sends (t : list Effect) : list (string * Content) :=
  omap (λ e, match e with Send ty c => Some (ty, c) | _ => None end) t.

Definition emits (t : list Effect) : list (string * Cause) :=
  omap (λ e, match e with Emit n a => Some (n, a) | _ => None end) t.

Definition hook_starts (t : list Effect) : nat :=
  length (omap (λ e, match e with DoVerification => Some tt | _ => None end) t).

(** The cancellation [cancel] synthesises for a cause that is neither the
    timeout sentinel nor an event. *)
Definition unknown_cancel (e : Cause) : Content :=
  {| code := Some "m.unknown"; reason := Some (toString e);
     body := None; from_device := None |}.

Definition unexpected_message (expected received : string) : Cause :=
  CauseError ("Unexpected message: expecting " +:+ expected
              +:+ " but got " +:+ received).

Definition other_side_cancelled (content : Content) : Cause :=
  CauseError ("Other side cancelled verification because "
              +:+ template (reason content)
              +:+ " (" +:+ template (code content) +:+ ")").


(** ** Properties as the specification words them

    Properties of the specification stated literally, so that they can be
    tested on concrete runs (the batch property is [stated_batch] above). *)

(** The waiter fields are consistent when [_expectedEvent] is set exactly
    when [_resolveEvent] and [_rejectEvent] are. *)
Definition waiter_consistent (o : VerificationBase) : bool :=
  Bool.eqb (isSome (_expectedEvent o)) (isSome (_resolveEvent o))
  && Bool.eqb (isSome (_expectedEvent o)) (isSome (_rejectEvent o)).

Definition flags_kept (o o' : VerificationBase) : bool :=
  implb (_done o) (_done o') && implb (cancelled o) (cancelled o').

(** At most one of the two flags goes from unset to set. *)
Definition one_flag_set (o o' : VerificationBase) : bool :=
  negb ((negb (_done o) && _done o') && (negb (cancelled o) && cancelled o')).

Definition stated_invariant (env : Env) (op : Op) (s : State) : bool :=
  flags_kept (this s) (this (step env op s))
  && one_flag_set (this s) (this (step env op s))
  && waiter_consistent (this (step env op s)).

(** An unexpected event on a live transaction: expectation cleared, waiter
    rejected, cancellation with code [m.unknown] sent, [cancelled] set. *)
Definition stated_protocol_violation (env : Env) (s : State) (e : MatrixEvent) : Prop :=
  ∀ t w,
    _done (this s) = false → cancelled (this s) = false →
    _expectedEvent (this s) = Some t → t ≠ "" →
    _rejectEvent (this s) = Some w → promises s !! w = Some Pending →
    getType e ≠ t → getType e ≠ cancel_type →
    _expectedEvent (this (exec (handleEvent env e) s)) = None
    ∧ promises (exec (handleEvent env e) s) !! w
      = Some (Rejected (unexpected_message t (getType e)))
    ∧ sends (trace (exec (handleEvent env e) s))
      = sends (trace s)
        ++ [(cancel_type, unknown_cancel (unexpected_message t (getType e)))]
    ∧ cancelled (this (exec (handleEvent env e) s)) = true.

(** ** Auxiliary notions used in the proofs *)

(** The hook runs when [_started] is set, and only then. *)
Definition hook_counted (s : State) : Prop :=
  hook_starts (trace s) = if _started (this s) then 1 else 0.

(** What the code keeps of the waiter fields: a reject handle only with an
    expectation, an expectation only with a resolve handle. *)
Definition waiter_ordered (o : VerificationBase) : bool :=
  implb (isSome (_rejectEvent o)) (isSome (_expectedEvent o))
  && implb (isSome (_expectedEvent o)) (isSome (_resolveEvent o)).

Definition waiter_paired (o : VerificationBase) : bool :=
  Bool.eqb (isSome (_expectedEvent o)) (isSome (_rejectEvent o)).

(** The state in which [handleEvent] calls [cancel] on a protocol
    violation: expectation cleared, waiter rejected if there is one. *)
Definition violation_state (exception : Cause) (s : State) : State :=
  match _rejectEvent (this s) with
  | Some reject =>
      with_promises (settle reject (Rejected exception))
        (with_this (set_rejectEvent None) (with_this (set_expectedEvent None) s))
  | None => with_this (set_expectedEvent None) s
  end.

(** The calls that can run [cancel]: [cancel] itself, the timer callback,
    and [handleEvent] on an event other than a remote cancellation. *)
Definition may_cancel (op : Op) : bool :=
  match op with
  | OpCancel _ | OpTimerFires _ => true
  | OpHandleEvent e => negb (String.eqb (getType e) cancel_type)
  | _ => false
  end.

(** The calls only the running [_doVerification] hook makes: it awaits
    events, and its completion is routed to [done]. *)
Definition hook_call (op : Op) : bool :=
  match op with
  | OpWaitForEvent _ | OpDone => true
  | _ => false
  end.

(** A run in which those calls happen only once [verify] has started the
    hook. *)
Fixpoint hooked (env : Env) (ops : list Op) (s : State) : bool :=
  match ops with
  | [] => true
  | op :: rest =>
      implb (hook_call op) (_started (this s)) && hooked env rest (step env op s)
  end.

(** What such runs maintain: no expectation before the hook starts; a
    transaction that is cancelled but not done was cancelled before
    [verify()], so its hook never started and it has no reject closure. *)
Definition early_cancel_inv (o : VerificationBase) : bool :=
  implb (negb (_started o)) (negb (isSome (_expectedEvent o)))
  && implb (cancelled o && negb (_done o))
           (negb (_started o) && negb (isSome (_reject o)))
  && implb (negb (_done o) && isSome (_promise o) && negb (isSome (_reject o)))
           (negb (_started o))
  && implb (negb (isSome (_promise o)))
           (negb (isSome (_reject o)) && negb (_started o))
  && implb (cancelled o) (isSome (_promise o)).

(** ** Concrete parties used in examples *)

Definition no_content : Content :=
  {| code := None; reason := None; body := None; from_device := None |}.

Definition timeout_event : MatrixEvent :=
  {| getType := cancel_type; getSender := None;
     getContent := {| code := Some "m.timeout"; reason := Some "Timed out";
                      body := None; from_device := None |} |}.

Definition alice : Env := base_class "@alice:example.org" "ALICEDEVICE" timeout_event.

(** A subclass with a [_doVerification] hook that allows start-event
    switching. *)
Definition alice_sas : Env :=
  {| canSwitchStartEvent := λ _, true; hasDoVerification := true;
     getUserId := "@alice:example.org"; getDeviceId := "ALICEDEVICE";
     newTimeoutError := timeout_event |}.

Definition bob_transaction : State :=
  constructor (Some "@bob:example.org") (Some "BOBDEVICE") None true.

Definition event_of_type (type : string) : MatrixEvent :=
  {| getType := type; getSender := Some "@bob:example.org";
     getContent := no_content |}.

(** A device store that knows two devices of the other party, and a
    verifier that accepts one particular key info. *)
Definition bob_devices (userId : string) (deviceId : option string)
    : Completion (option string) :=
  if bool_decide (deviceId = Some "DEV1") then Normal (Some "device DEV1")
  else if bool_decide (deviceId = Some "DEV2") then Normal (Some "device DEV2")
  else Normal None.

Definition bob_cross_signing (userId : string) : Completion (option IdValue) :=
  Normal (Some (id_string "MASTERKEY")).

(** A cross-signing identity whose [getId()] answers [undefined]. *)
Definition no_master_key (userId : string) : Completion (option IdValue) :=
  Normal (Some id_undefined).

Definition synthesised (keys : list (string * option string)) (deviceId : option string)
    : Completion string :=
  Normal ("device " +:+ template deviceId).

Definition mac_verifier (keyId device keyInfo : string) : option Cause :=
  if String.eqb keyInfo "good mac" then None else Some (CauseError "key mismatch").

Definition marking_works (userId : string) (deviceId : option string) : option Cause :=
  None.

Definition rejected_by_user : MatrixEvent :=
  {| getType := cancel_type; getSender := Some "@bob:example.org";
     getContent := {| code := Some "m.user"; reason := Some "rejected";
                      body := None; from_device := None |} |}.

Definition key_type : string := "m.key.verification.key".
Definition mac_type : string := "m.key.verification.mac".

(** ** Further notions: the promise store, the timers, the request *)

(** A promise that is no longer pending. *)
Definition settled (ps : list PromiseState) (p : PromiseId) : Prop :=
  ∃ x, ps !! p = Some x ∧ x ≠ Pending.

(** From one store to a later one: no promise disappears and a settled
    promise keeps its outcome. *)
Definition settled_kept (ps ps' : list PromiseState) : Prop :=
  (length ps ≤ length ps')%nat
  ∧ ∀ p x, ps !! p = Some x → x ≠ Pending → ps' !! p = Some x.

(** What every sequence of calls maintains.  The promise in [_promise] is
    in the store; without closures it was made by [cancel] and is rejected;
    with closures it is pending exactly while [_done] is unset, and the
    reject closure is then still there.  The handles of the awaited event
    belong to a promise other than the one of [verify], pending while the
    reject handle is there.  At most the timer in
    [_transactionTimeoutTimer] is armed, and none once [_done] is set. *)
Definition well_formed (s : State) : Prop :=
  match _promise (this s) with
  | None => _resolve (this s) = None ∧ _reject (this s) = None
            ∧ _done (this s) = false
  | Some p =>
      (p < length (promises s))%nat
      ∧ match _resolve (this s) with
        | None => _reject (this s) = None ∧ _done (this s) = false
                  ∧ settled (promises s) p
        | Some q =>
            q = p
            ∧ (if _done (this s) then settled (promises s) p
               else _reject (this s) = Some p ∧ promises s !! p = Some Pending)
            ∧ (_reject (this s) = None ∨ _reject (this s) = Some p)
        end
  end
  ∧ match _resolveEvent (this s) with
    | None => _rejectEvent (this s) = None
    | Some w =>
        (w < length (promises s))%nat ∧ _promise (this s) ≠ Some w
        ∧ match _rejectEvent (this s) with
          | None => True
          | Some w' => w' = w ∧ promises s !! w = Some Pending
          end
    end
  ∧ match _transactionTimeoutTimer (this s) with
    | Some h => _done (this s) = false ∧ (armed s = [h] ∨ armed s = [])
    | None => armed s = []
    end.

(** The promises the object still holds a handle of. *)
Definition referenced (o : VerificationBase) (q : PromiseId) : Prop :=
  _promise o = Some q ∨ _resolveEvent o = Some q ∨ _rejectEvent o = Some q
  ∨ _resolve o = Some q ∨ _reject o = Some q.

(** How often the request was told that the verifier finished, and the
    key requests that were started. *)
Definition notified (t : list Effect) : nat :=
  length (omap (λ e, match e with OnVerifierFinished => Some tt | _ => None end) t).

Definition key_requests (t : list Effect) : list (option string) :=
  omap (λ e, match e with CrossSigningKeysRequested d => Some d | _ => None end) t.

(** A transaction on which [verify] has installed nothing. *)
Definition unverified (o : VerificationBase) : Prop :=
  _resolve o = None ∧ _reject o = None ∧ _done o = false.

(** What runs driven by the hook maintain about the request: a started
    hook has its closures, and the request is told at most once, and only
    when the transaction becomes done. *)
Definition notified_once (s : State) : Prop :=
  (_started (this s) = true → is_Some (_resolve (this s)))
  ∧ (_done (this s) = false → notified (trace s) = 0%nat)
  ∧ (notified (trace s) ≤ 1)%nat.

(** What a transaction maintains once [verify] has stored its promise
    and closures: while it is not done the reject closure is there and nothing
    was sent or emitted, and at most one message was sent and one
    ['cancel'] emitted in all. *)
Definition cancel_counted (s : State) : Prop :=
  is_Some (_promise (this s))
  ∧ is_Some (_resolve (this s))
  ∧ (_done (this s) = false →
     is_Some (_reject (this s)) ∧ sends (trace s) = [] ∧ emits (trace s) = [])
  ∧ (length (sends (trace s)) ≤ 1)%nat
  ∧ (length (emits (trace s)) ≤ 1)%nat.

Fixpoint colon_free (s : string) : bool :=
  match s with
  | EmptyString => true
  | String c r => negb (Ascii.eqb c colon) && colon_free r
  end.

(** A transaction whose hook awaits the key of the other party. *)
Definition awaiting_key : State :=
  run alice_sas [OpVerify; OpWaitForEvent key_type] bob_transaction.

(** ** [errors.js]

    The two store errors, as the objects their constructors build.
    [InvalidStoreError] keeps the default name [Error];
    [InvalidCryptoStoreError] sets its own. *)

Record InvalidStoreError (V : Type) := mkInvalidStoreError {
  ise_message : string;
  ise_reason : option string;
  ise_value : V }.
Arguments mkInvalidStoreError {V}.
Arguments ise_message {V}.
Arguments ise_reason {V}.
Arguments ise_value {V}.

Record InvalidCryptoStoreError := mkInvalidCryptoStoreError {
  icse_message : string;
  icse_reason : option string;
  icse_name : string }.

Definition recovery_advice : string :=
  "please stop the client, delete all data and start the client again".

Definition new_InvalidStoreError {V} (reason : option string) (value : V)
    : InvalidStoreError V :=
  {| ise_message := "Store is invalid because " +:+ template reason +:+ ", "
                    +:+ recovery_advice;
     ise_reason := reason;
     ise_value := value |}.

Definition TOGGLED_LAZY_LOADING : string := "TOGGLED_LAZY_LOADING".

Definition new_InvalidCryptoStoreError (reason : option string)
    : InvalidCryptoStoreError :=
  {| icse_message := "Crypto store is invalid because " +:+ template reason
                     +:+ ", " +:+ recovery_advice;
     icse_reason := reason;
     icse_name := "InvalidCryptoStoreError" |}.

Definition TOO_NEW : string := "TOO_NEW".

(** ** Proof automation *)

Arguments sends : simpl never.
Arguments emits : simpl never.
Arguments hook_starts : simpl never.
Arguments marks : simpl never.
Arguments warnings : simpl never.

Ltac js_unfold :=
  unfold step, exec, outcome, timeout_callback, cancel, handleEvent, done,
    verify, _waitForEvent, switchStartEvent, _resetTimer, call_resolve,
    call_reject, _endTimer, _send, emit, setTimeout, clearTimeout,
    new_Promise, Promise_reject, promise_resolve, promise_reject,
    modify_this, mbind, Js_bind, mret, Js_ret, ret, get, modify, throw in *.

(** Case analysis on the innermost scrutinee of the goal, using a
    hypothesis that already decides it when there is one. *)
Ltac js_destruct x :=
  lazymatch x with
  | negb ?y => js_destruct y
  | andb ?a _ => js_destruct a
  | _ => first [ match goal with H : x = _ |- _ => rewrite H end
               | destruct x eqn:? ]
  end.

Ltac js_case :=
  match goal with
  | |- context [match ?x with _ => _ end] =>
      lazymatch x with
      | context [match _ with _ => _ end] => fail
      | _ => js_destruct x
      end
  end.

Ltac js_crush := repeat first [progress js_unfold | progress (cbn in *) | js_case].

(** Propagates the equations found by case analysis into the other
    hypotheses, then closes the goal. *)
Ltac js_subst :=
  repeat match goal with
         | E : ?x = ?v, H : context [?x] |- _ =>
             lazymatch v with
             | Some _ => idtac | None => idtac | true => idtac | false => idtac
             end;
             lazymatch x with
             | Some _ => fail | None => fail | true => fail | false => fail
             | _ => idtac
             end;
             lazymatch type of H with
             | x = v => fail
             | _ => rewrite E in H
             end
         end.

Ltac js_goal :=
  repeat match goal with
         | E : ?x = ?v |- context [?x] =>
             lazymatch v with
             | Some _ => idtac | None => idtac | true => idtac | false => idtac
             end;
             lazymatch x with
             | Some _ => fail | None => fail | true => fail | false => fail
             | _ => rewrite E
             end
         end.

Ltac js_close := js_subst; js_goal; cbn in *; first [congruence | done].

(** ** Promises and traces *)

Lemma settle_pending (ps : list PromiseState) p v :
  ps !! p = Some Pending → settle p v ps !! p = Some v.
Proof.
  intros H. unfold settle. rewrite H.
  apply list_lookup_insert_eq. by eapply lookup_lt_Some.
Qed.

Lemma settle_settled (ps : list PromiseState) p q v x :
  ps !! q = Some x → x ≠ Pending → settle p v ps !! q = Some x.
Proof.
  intros H Hx. unfold settle.
  destruct (ps !! p) as [[]|] eqn:Hp; try done.
  destruct (decide (p = q)) as [->|Hne]; [congruence|].
  by rewrite list_lookup_insert_ne.
Qed.

Lemma sends_app t1 t2 : sends (t1 ++ t2) = sends t1 ++ sends t2.
Proof. apply omap_app. Qed.

Lemma emits_app t1 t2 : emits (t1 ++ t2) = emits t1 ++ emits t2.
Proof. apply omap_app. Qed.

Lemma hook_starts_app t1 t2 : hook_starts (t1 ++ t2) = hook_starts t1 + hook_starts t2.
Proof. unfold hook_starts. by rewrite omap_app, length_app. Qed.

Lemma sends_snoc t e :
  sends (t ++ [e]) = sends t ++ match e with Send ty c => [(ty, c)] | _ => [] end.
Proof. rewrite sends_app. by destruct e. Qed.

Lemma emits_snoc t e :
  emits (t ++ [e]) = emits t ++ match e with Emit n a => [(n, a)] | _ => [] end.
Proof. rewrite emits_app. by destruct e. Qed.

Lemma hook_starts_snoc t e :
  hook_starts (t ++ [e]) = hook_starts t + match e with DoVerification => 1 | _ => 0 end.
Proof. rewrite hook_starts_app. by destruct e. Qed.

(** Normalises the observations of a trace that is the old trace followed
    by known effects. *)
Ltac trace_simpl :=
  rewrite ?sends_snoc, ?emits_snoc, ?hook_starts_snoc;
  cbn; rewrite ?app_nil_r, ?Nat.add_0_r.

Lemma with_this_id (s : State) (f : VerificationBase → VerificationBase) :
  f (this s) = this s → with_this f s = s.
Proof. destruct s as [o ps n a t]. unfold with_this. cbn. by intros ->. Qed.

Lemma set_reject_id (o : VerificationBase) : _reject o = None → set_reject None o = o.
Proof. destruct o. cbn. by intros ->. Qed.

(** ** [_endTimer] *)

Lemma endTimer_frame s :
  this (exec _endTimer s) = set_transactionTimeoutTimer None (this s)
  ∧ promises (exec _endTimer s) = promises s
  ∧ sends (trace (exec _endTimer s)) = sends (trace s)
  ∧ emits (trace (exec _endTimer s)) = emits (trace s)
  ∧ hook_starts (trace (exec _endTimer s)) = hook_starts (trace s).
Proof.
  js_crush.
  - by trace_simpl.
  - repeat split. destruct s as [[] ? ? ? ?]. cbn in *. by subst.
Qed.

(** ** [cancel] *)

(** Once [_done] is set, [cancel] only stops the timer. *)
Lemma cancel_done env e s :
  _done (this s) = true → cancel env e s = (Normal tt, exec _endTimer s).
Proof.
  intros H. unfold cancel at 1. js_unfold.
  destruct (_transactionTimeoutTimer (this s)); cbn; by rewrite H.
Qed.

Lemma cancel_done_noop env e s :
  _done (this s) = true → _transactionTimeoutTimer (this s) = None →
  cancel env e s = (Normal tt, s).
Proof.
  intros H Ht. rewrite cancel_done by done. js_unfold. by rewrite Ht.
Qed.

Lemma cancel_sets_cancelled env e s :
  _done (this s) = false → cancelled (this (exec (cancel env e) s)) = true.
Proof. intros H. js_crush; congruence. Qed.

(** What [cancel] leaves in [_done]: it is set through the [_reject]
    closure, so only when [verify] created one. *)
Lemma cancel_done_flag env e s :
  _done (this s) = false →
  _done (this (exec (cancel env e) s))
  = isSome (_promise (this s)) && isSome (_reject (this s)).
Proof. intros H. js_crush; congruence. Qed.

Lemma cancel_timer_off env e s :
  _transactionTimeoutTimer (this (exec (cancel env e) s)) = None.
Proof. js_crush; congruence. Qed.

(** After [verify], or once the transaction is done, a second [cancel]
    changes nothing at all. *)
Lemma cancel_twice_after_verify env e1 e2 s :
  _done (this s) = true
  ∨ (is_Some (_promise (this s)) ∧ is_Some (_reject (this s))) →
  cancel env e2 (exec (cancel env e1) s) = (Normal tt, exec (cancel env e1) s).
Proof.
  intros H. apply cancel_done_noop; [|apply cancel_timer_off].
  destruct (_done (this s)) eqn:Hd.
  - unfold exec at 1. rewrite (cancel_done env e1 s Hd). cbn [snd].
    by destruct (endTimer_frame s) as [-> _].
  - rewrite cancel_done_flag by done.
    destruct H as [?|[[? ->] [? ->]]]; [done|reflexivity].
Qed.

(** C1, on the code: a transaction cancelled before [verify()] is not
    marked done, so a second [cancel()] is not a no-op.  It sends a second
    [m.key.verification.cancel] and emits ['cancel'] a second time. *)
Theorem cancel_twice_before_verify env start req m1 m2 :
  let s0 := constructor (Some "@bob:example.org") (Some "BOBDEVICE") start req in
  let s1 := exec (cancel env (CauseError m1)) s0 in
  let s2 := exec (cancel env (CauseError m2)) s1 in
  _done (this s1) = false
  ∧ sends (trace s1) = [(cancel_type, unknown_cancel (CauseError m1))]
  ∧ emits (trace s1) = [("cancel", CauseError m1)]
  ∧ sends (trace s2) = [(cancel_type, unknown_cancel (CauseError m1));
                        (cancel_type, unknown_cancel (CauseError m2))]
  ∧ emits (trace s2) = [("cancel", CauseError m1); ("cancel", CauseError m2)].
Proof. cbn. repeat split. Qed.

(** ** [_waitForEvent] *)

Lemma waitForEvent_done t s :
  _done (this s) = true →
  _waitForEvent t s
  = (Normal (length (promises s)),
     with_promises (λ ps, ps ++ [Rejected (CauseError "Verification is already done")]) s).
Proof. intros H. js_unfold. by rewrite H. Qed.

Lemma waitForEvent_live t s :
  _done (this s) = false →
  outcome (_waitForEvent t) s = Normal (length (promises s))
  ∧ _expectedEvent (this (exec (_waitForEvent t) s)) = Some t
  ∧ _resolveEvent (this (exec (_waitForEvent t) s)) = Some (length (promises s))
  ∧ _rejectEvent (this (exec (_waitForEvent t) s)) = Some (length (promises s))
  ∧ promises (exec (_waitForEvent t) s) !! length (promises s) = Some Pending.
Proof.
  intros H. js_unfold. rewrite H. cbn. repeat split.
  by rewrite lookup_app_r, Nat.sub_diag.
Qed.

(** [_waitForEvent] tests [_done] only.  Called from outside the hook on
    a transaction cancelled before [verify()], it records the expectation
    and returns a pending promise. *)
Lemma waitForEvent_after_early_cancel env uid did start req e t :
  let s1 := exec (cancel env e) (constructor uid did start req) in
  let s2 := exec (_waitForEvent t) s1 in
  cancelled (this s1) = true
  ∧ outcome (_waitForEvent t) s1 = Normal 1
  ∧ promises s2 !! 1 = Some Pending
  ∧ _expectedEvent (this s2) = Some t
  ∧ _rejectEvent (this s2) = Some 1.
Proof. js_crush; repeat split. Qed.

(** ** [handleEvent] on a terminal transaction *)

Lemma handleEvent_done env e s :
  _done (this s) = true → handleEvent env e s = (Normal tt, s).
Proof. intros H. js_unfold. by rewrite H. Qed.

(** A transaction with no expectation and no reject closure, as one that
    was cancelled before [verify()] and on which no event is awaited,
    ignores events as well. *)
Lemma handleEvent_idle env e s :
  _expectedEvent (this s) = None → _reject (this s) = None →
  handleEvent env e s = (Normal tt, s).
Proof.
  intros He Hr. js_unfold. rewrite He, Hr.
  destruct (_done (this s)); [done|].
  rewrite bool_decide_eq_false_2 by done.
  destruct (getType e =? cancel_type)%string; cbn; [|done].
  f_equal. apply with_this_id. by apply set_reject_id.
Qed.

(** [handleEvent] tests [_done] only.  On a transaction cancelled before
    [verify()] on which an event is nevertheless awaited, an unexpected
    event is not ignored: the waiter is rejected and [cancel] runs again,
    sending and emitting a second time. *)
Lemma handleEvent_after_early_cancel env m :
  let s1 := run env [OpCancel (CauseError m); OpWaitForEvent key_type] bob_transaction in
  let s2 := exec (handleEvent env (event_of_type mac_type)) s1 in
  cancelled (this s1) = true
  ∧ promises s1 !! 1 = Some Pending
  ∧ promises s2 !! 1 = Some (Rejected (unexpected_message key_type mac_type))
  ∧ _expectedEvent (this s2) = None
  ∧ sends (trace s2)
    = sends (trace s1)
      ++ [(cancel_type, unknown_cancel (unexpected_message key_type mac_type))]
  ∧ emits (trace s2)
    = emits (trace s1) ++ [("cancel", unexpected_message key_type mac_type)].
Proof. cbn. repeat split. Qed.

(** ** Runs driven by the hook

    The two evaluations above need [_waitForEvent] to be called on a
    transaction whose hook never started, which the class itself never
    does: [_waitForEvent] and [done] are for the [_doVerification] hook.
    In runs where only a started hook makes those calls, a transaction
    that is cancelled but not done has no expectation and no reject
    closure, and ignores every event. *)

Lemma step_early_cancel_inv env op s :
  implb (hook_call op) (_started (this s)) = true →
  early_cancel_inv (this s) = true →
  early_cancel_inv (this (step env op s)) = true.
Proof.
  unfold early_cancel_inv.
  destruct s as [[uid did st rq c d pr tm ex rv rj rs rjt sd] ps nt ar tr].
  cbn. intros Hh H.
  destruct c, d, sd, pr, rjt, ex; cbn in H; try discriminate H; clear H;
    destruct op; cbn in Hh; try discriminate Hh; clear Hh;
    js_crush; done.
Qed.

Lemma hooked_early_cancel_inv env ops s :
  hooked env ops s = true → early_cancel_inv (this s) = true →
  early_cancel_inv (this (run env ops s)) = true.
Proof.
  revert s. induction ops as [|op ops IH]; intros s Hh H; [done|].
  cbn in Hh. apply andb_prop in Hh as [Hop Hh].
  cbn. apply IH; [done|]. by apply step_early_cancel_inv.
Qed.

Lemma hooked_early_cancel_ignores env uid did start req ops e :
  hooked env ops (constructor uid did start req) = true →
  cancelled (this (run env ops (constructor uid did start req))) = true →
  _done (this (run env ops (constructor uid did start req))) = false →
  _started (this (run env ops (constructor uid did start req))) = false
  ∧ handleEvent env e (run env ops (constructor uid did start req))
    = (Normal tt, run env ops (constructor uid did start req)).
Proof.
  intros Hh Hc Hd.
  pose proof (hooked_early_cancel_inv env ops _ Hh eq_refl) as H.
  unfold early_cancel_inv in H.
  destruct (this (run env ops (constructor uid did start req)))
    as [? ? ? ? c d pr tm ex rv rj rs rjt sd] eqn:Ho.
  cbn in *. subst c d.
  assert (sd = false ∧ ex = None ∧ rjt = None) as (-> & -> & ->)
    by (destruct sd, ex, rjt, pr; cbn in *; done).
  split; [done|]. apply handleEvent_idle; by rewrite Ho.
Qed.

Lemma hooked_snoc env ops op s :
  hooked env (ops ++ [op]) s
  = hooked env ops s && implb (hook_call op) (_started (this (run env ops s))).
Proof.
  revert s. induction ops as [|op' ops IH]; intros s; cbn.
  - by rewrite andb_true_r.
  - by rewrite IH, andb_assoc.
Qed.

(** C3: in every run in which only a started hook awaits events, a
    transaction that is done or cancelled ignores every inbound event:
    [handleEvent] returns and leaves the whole state as it was (no field
    of the object, no promise, no timer changes, and nothing is sent or
    emitted).  This covers a transaction cancelled before [verify()]. *)
Theorem handleEvent_terminal env uid did start req ops e :
  hooked env ops (constructor uid did start req) = true →
  _done (this (run env ops (constructor uid did start req))) = true
  ∨ cancelled (this (run env ops (constructor uid did start req))) = true →
  handleEvent env e (run env ops (constructor uid did start req))
  = (Normal tt, run env ops (constructor uid did start req)).
Proof.
  intros Hh Ht.
  destruct (_done (this (run env ops (constructor uid did start req)))) eqn:Hd.
  - by apply handleEvent_done.
  - destruct Ht as [Ht|Hc]; [done|].
    by apply hooked_early_cancel_ignores.
Qed.

Lemma handleEvent_terminal_witness :
  cancelled (this (run alice [OpCancel (CauseError "user")] bob_transaction)) = true
  ∧ _done (this (run alice [OpCancel (CauseError "user")] bob_transaction)) = false
  ∧ handleEvent alice (event_of_type mac_type)
      (run alice [OpCancel (CauseError "user")] bob_transaction)
    = (Normal tt, run alice [OpCancel (CauseError "user")] bob_transaction).
Proof.
  split; [reflexivity|]. split; [reflexivity|].
  apply (handleEvent_terminal alice (Some "@bob:example.org") (Some "BOBDEVICE")
           None true [OpCancel (CauseError "user")]).
  - reflexivity.
  - right. reflexivity.
Defined.

(** C8: when the started hook calls [_waitForEvent] on a transaction that
    is done or cancelled, the call returns a promise that is already
    rejected, and changes nothing else: no expectation is recorded.
    Otherwise it records the expected type and the closures of a new,
    pending promise, which it returns. *)
Theorem waitForEvent_cases env uid did start req ops t :
  hooked env (ops ++ [OpWaitForEvent t]) (constructor uid did start req) = true →
  (_done (this (run env ops (constructor uid did start req))) = true
   ∨ cancelled (this (run env ops (constructor uid did start req))) = true →
   _waitForEvent t (run env ops (constructor uid did start req))
   = (Normal (length (promises (run env ops (constructor uid did start req)))),
      with_promises
        (λ ps, ps ++ [Rejected (CauseError "Verification is already done")])
        (run env ops (constructor uid did start req))))
  ∧ (_done (this (run env ops (constructor uid did start req))) = false →
     cancelled (this (run env ops (constructor uid did start req))) = false →
     outcome (_waitForEvent t) (run env ops (constructor uid did start req))
     = Normal (length (promises (run env ops (constructor uid did start req))))
     ∧ _expectedEvent
         (this (exec (_waitForEvent t) (run env ops (constructor uid did start req))))
       = Some t
     ∧ _resolveEvent
         (this (exec (_waitForEvent t) (run env ops (constructor uid did start req))))
       = Some (length (promises (run env ops (constructor uid did start req))))
     ∧ _rejectEvent
         (this (exec (_waitForEvent t) (run env ops (constructor uid did start req))))
       = Some (length (promises (run env ops (constructor uid did start req))))
     ∧ promises (exec (_waitForEvent t) (run env ops (constructor uid did start req)))
         !! length (promises (run env ops (constructor uid did start req)))
       = Some Pending).
Proof.
  rewrite hooked_snoc. intros Hh.
  apply andb_prop in Hh as [Hh Hs]. cbn in Hs. split.
  - intros Ht. apply waitForEvent_done.
    destruct (_done (this (run env ops (constructor uid did start req)))) eqn:Hd;
      [done|].
    destruct Ht as [Ht|Hc]; [done|].
    destruct (hooked_early_cancel_ignores env uid did start req ops
                (event_of_type t) Hh Hc Hd) as [Hn _].
    by rewrite Hn in Hs.
  - intros Hd _. by apply waitForEvent_live.
Qed.

Lemma waitForEvent_cases_witness :
  cancelled (this (run alice_sas [OpVerify; OpCancel (CauseError "user")]
                     bob_transaction)) = true
  ∧ _waitForEvent key_type
      (run alice_sas [OpVerify; OpCancel (CauseError "user")] bob_transaction)
    = (Normal 1,
       with_promises
         (λ ps, ps ++ [Rejected (CauseError "Verification is already done")])
         (run alice_sas [OpVerify; OpCancel (CauseError "user")] bob_transaction)).
Proof.
  split; [reflexivity|].
  apply (proj1 (waitForEvent_cases alice_sas (Some "@bob:example.org")
                  (Some "BOBDEVICE") None true
                  [OpVerify; OpCancel (CauseError "user")] key_type eq_refl)).
  right. reflexivity.
Defined.

(** ** [verify] *)

Lemma verify_again env s p :
  _promise (this s) = Some p → verify env s = (Normal p, s).
Proof. intros H. js_unfold. by rewrite H. Qed.

(** [verify] always returns, and what it returns is stored in
    [_promise]. *)
Lemma verify_returns env s :
  ∃ p, outcome (verify env) s = Normal p
       ∧ _promise (this (exec (verify env) s)) = Some p.
Proof.
  destruct (_promise (this s)) as [p|] eqn:H.
  - exists p. unfold outcome, exec. by rewrite (verify_again env s p H).
  - exists (length (promises s)). js_crush; done.
Qed.

(** No method replaces a promise stored in [_promise]. *)
Lemma step_keeps_promise env op s p :
  _promise (this s) = Some p → _promise (this (step env op s)) = Some p.
Proof. intros H. destruct op; js_crush; congruence. Qed.

Lemma run_keeps_promise env ops s p :
  _promise (this s) = Some p → _promise (this (run env ops s)) = Some p.
Proof.
  revert s. induction ops as [|op ops IH]; intros s H; [done|].
  cbn. apply IH. by apply step_keeps_promise.
Qed.

Lemma step_hook_counted env op s : hook_counted s → hook_counted (step env op s).
Proof.
  unfold hook_counted. intros H.
  destruct op; js_crush; trace_simpl;
    repeat match goal with
           | E : _started _ = _ |- _ => rewrite E in *
           end; try congruence; lia.
Qed.

Lemma run_hook_counted env ops s : hook_counted s → hook_counted (run env ops s).
Proof.
  revert s. induction ops as [|op ops IH]; intros s H; [done|].
  cbn. apply IH. by apply step_hook_counted.
Qed.

(** C2: [verify()] is idempotent.  The first call returns a promise; every
    later call, whatever happened to the transaction in between, returns
    that same promise and changes nothing (no timer armed, no hook run);
    and over the life of a transaction the [_doVerification] hook is
    started at most once. *)
Theorem verify_idempotent env :
  (∀ s, ∃ p,
      outcome (verify env) s = Normal p
      ∧ ∀ ops, verify env (run env ops (exec (verify env) s))
               = (Normal p, run env ops (exec (verify env) s)))
  ∧ (∀ uid did start req ops,
      (hook_starts (trace (run env ops (constructor uid did start req))) ≤ 1)%nat).
Proof.
  split.
  - intros s. destruct (verify_returns env s) as (p & Hp & Hs).
    exists p. split; [done|]. intros ops.
    apply verify_again. by apply run_keeps_promise.
  - intros uid did start req ops.
    assert (hook_counted (run env ops (constructor uid did start req))) as H
      by (by apply run_hook_counted).
    unfold hook_counted in H. rewrite H.
    destruct (_started (this (run env ops (constructor uid did start req)))); lia.
Qed.

(** ** The flags and the waiter fields across calls *)

Lemma step_flags_kept env op s : flags_kept (this s) (this (step env op s)) = true.
Proof.
  unfold flags_kept.
  destruct op; js_crush;
    repeat match goal with
           | |- context [_done (this s)] => destruct (_done (this s))
           | |- context [cancelled (this s)] => destruct (cancelled (this s))
           end; cbn; congruence.
Qed.

Lemma step_keeps_resolveEvent env op s :
  isSome (_resolveEvent (this s)) = true →
  isSome (_resolveEvent (this (step env op s))) = true.
Proof. intros H. destruct op; js_crush; js_close. Qed.

Lemma step_waiter_ordered env op s :
  waiter_ordered (this s) = true → waiter_ordered (this (step env op s)) = true.
Proof.
  unfold waiter_ordered.
  destruct s as [[uid did st rq c d pr tm ex rv rj rs rjt sd] ps nt ar tr].
  cbn. intros H.
  destruct op; js_crush; try js_close; by destruct ex, rv.
Qed.

Lemma step_waiter_paired env op s :
  (∀ e, canSwitchStartEvent env e = false) →
  waiter_paired (this s) = true → waiter_paired (this (step env op s)) = true.
Proof.
  unfold waiter_paired.
  destruct s as [[uid did st rq c d pr tm ex rv rj rs rjt sd] ps nt ar tr].
  cbn. intros Hsw H.
  destruct op; js_crush; try done;
    try match goal with
        | E : canSwitchStartEvent _ _ = true |- _ => by rewrite Hsw in E
        end; js_close.
Qed.

Lemma reachable_waiter_ordered env s : reachable env s → waiter_ordered (this s) = true.
Proof.
  intros (uid & did & start & req & ops & ->).
  generalize (eq_refl : waiter_ordered (this (constructor uid did start req)) = true).
  generalize (constructor uid did start req).
  induction ops as [|op ops IH]; intros s H; [done|].
  cbn. apply IH. by apply step_waiter_ordered.
Qed.

Lemma reachable_waiter_paired env s :
  (∀ e, canSwitchStartEvent env e = false) →
  reachable env s → waiter_paired (this s) = true.
Proof.
  intros Hsw (uid & did & start & req & ops & ->).
  generalize (eq_refl : waiter_paired (this (constructor uid did start req)) = true).
  generalize (constructor uid did start req).
  induction ops as [|op ops IH]; intros s H; [done|].
  cbn. apply IH. by apply step_waiter_paired.
Qed.

Lemma reachable_step env op s : reachable env s → reachable env (step env op s).
Proof.
  intros (uid & did & start & req & ops & ->).
  exists uid, did, start, req, (ops ++ [op]).
  unfold run. by rewrite foldl_snoc.
Qed.

Lemma done_keeps_cancelled env s :
  cancelled (this (exec (done env) s)) = cancelled (this s).
Proof. js_crush; congruence. Qed.

(** C4, as the specification words it, fails on two runs: a matched event
    clears [_expectedEvent] and [_rejectEvent] but leaves [_resolveEvent]
    set, and a [cancel()] after [verify()] sets [cancelled] and [_done]
    together. *)
Lemma stated_invariant_fails :
  stated_invariant alice_sas (OpHandleEvent (event_of_type key_type))
    (run alice_sas [OpVerify; OpWaitForEvent key_type] bob_transaction) = false
  ∧ stated_invariant alice_sas (OpCancel (CauseError "user"))
      (run alice_sas [OpVerify] bob_transaction) = false.
Proof. split; reflexivity. Qed.

(** C4, amended: after every call on a transaction, [_done] and
    [cancelled] stay set once set; a reject handle for the awaited event is
    present only with an expectation, and an expectation only with a
    resolve handle, which is never cleared; in a class that never allows
    start-event switching, the expectation is set exactly when the reject
    handle is; [done()] never sets [cancelled], and [cancel()] on a
    transaction that is not done sets [cancelled], and [_done] as well
    exactly when [verify()] left a reject closure. *)
Theorem state_invariant env s op :
  reachable env s →
  flags_kept (this s) (this (step env op s)) = true
  ∧ waiter_ordered (this (step env op s)) = true
  ∧ (isSome (_resolveEvent (this s)) = true →
     isSome (_resolveEvent (this (step env op s))) = true)
  ∧ ((∀ e, canSwitchStartEvent env e = false) →
     waiter_paired (this (step env op s)) = true)
  ∧ cancelled (this (exec (done env) s)) = cancelled (this s)
  ∧ (∀ e, _done (this s) = false →
          cancelled (this (exec (cancel env e) s)) = true
          ∧ _done (this (exec (cancel env e) s))
            = isSome (_promise (this s)) && isSome (_reject (this s))).
Proof.
  intros Hr. repeat split.
  - apply step_flags_kept.
  - apply (reachable_waiter_ordered env). by apply reachable_step.
  - apply step_keeps_resolveEvent.
  - intros Hsw. apply (reachable_waiter_paired env); [done|]. by apply reachable_step.
  - apply done_keeps_cancelled.
  - by apply cancel_sets_cancelled.
  - by apply cancel_done_flag.
Qed.

Lemma state_invariant_witness :
  reachable alice_sas (run alice_sas [OpVerify; OpWaitForEvent key_type] bob_transaction)
  ∧ waiter_ordered
      (this (step alice_sas (OpHandleEvent (event_of_type key_type))
               (run alice_sas [OpVerify; OpWaitForEvent key_type] bob_transaction)))
    = true.
Proof.
  assert (reachable alice_sas
            (run alice_sas [OpVerify; OpWaitForEvent key_type] bob_transaction)) as Hr.
  { exists (Some "@bob:example.org"), (Some "BOBDEVICE"), None, true,
      [OpVerify; OpWaitForEvent key_type]. reflexivity. }
  split; [exact Hr|].
  exact (proj1 (proj2 (state_invariant alice_sas _
                         (OpHandleEvent (event_of_type key_type)) Hr))).
Defined.

(** ** Protocol violations *)

(** [cancel] with an error as cause, on a transaction that is not done. *)
Lemma cancel_error_live env m s :
  _done (this s) = false →
  cancelled (this (exec (cancel env (CauseError m)) s)) = true
  ∧ _expectedEvent (this (exec (cancel env (CauseError m)) s)) = _expectedEvent (this s)
  ∧ _rejectEvent (this (exec (cancel env (CauseError m)) s)) = _rejectEvent (this s)
  ∧ sends (trace (exec (cancel env (CauseError m)) s))
    = sends (trace s)
      ++ (if truthy (userId (this s)) && truthy (deviceId (this s))
          then [(cancel_type, unknown_cancel (CauseError m))] else [])
  ∧ (∀ w x, promises s !! w = Some x → x ≠ Pending →
            promises (exec (cancel env (CauseError m)) s) !! w = Some x).
Proof.
  destruct s as [[uid did st rq c d pr tm ex rv rj rs rjt sd] ps nt ar tr].
  cbn. intros ->.
  js_crush; trace_simpl; repeat split; try done;
    intros w x Hw Hx;
    first [ by apply settle_settled
          | by apply lookup_app_l_Some
          | done ].
Qed.

Lemma handleEvent_violation env e s t :
  _done (this s) = false → _expectedEvent (this s) = Some t → t ≠ "" →
  getType e ≠ t → getType e ≠ cancel_type →
  handleEvent env e s
  = cancel env (unexpected_message t (getType e))
      (violation_state (unexpected_message t (getType e)) s).
Proof.
  intros Hd He Ht Hne Hc. unfold handleEvent, violation_state. js_unfold.
  rewrite Hd, He. cbn.
  rewrite bool_decide_eq_false_2 by congruence.
  apply String.eqb_neq in Hc. rewrite Hc.
  apply String.eqb_neq in Ht. rewrite Ht. cbn.
  by destruct (_rejectEvent (this s)).
Qed.

(** C5, as the specification words it, fails when the device of the other
    party is not known: the transaction is cancelled but nothing is sent. *)
Lemma stated_protocol_violation_fails :
  ¬ stated_protocol_violation alice_sas
      (run alice_sas [OpVerify; OpWaitForEvent key_type]
         (constructor (Some "@bob:example.org") None None true))
      (event_of_type mac_type).
Proof.
  intros H.
  destruct (H key_type 1) as (_ & _ & Hs & _);
    [reflexivity | reflexivity | reflexivity | discriminate | reflexivity
    | reflexivity | discriminate | discriminate | ].
  vm_compute in Hs. discriminate Hs.
Qed.

(** C5, amended: on a transaction that is not done and awaits an event of
    a non-empty type, an event of another type that is not
    [m.key.verification.cancel] clears the expectation, rejects the pending
    waiter with an error naming the expected and the received type, sets
    [cancelled], and, when both the user and the device of the other party
    are known, sends [m.key.verification.cancel] with code [m.unknown];
    when one of them is not known, nothing is sent. *)
Theorem protocol_violation env s e t :
  _done (this s) = false → _expectedEvent (this s) = Some t → t ≠ "" →
  getType e ≠ t → getType e ≠ cancel_type →
  _expectedEvent (this (exec (handleEvent env e) s)) = None
  ∧ _rejectEvent (this (exec (handleEvent env e) s)) = None
  ∧ (∀ w, _rejectEvent (this s) = Some w → promises s !! w = Some Pending →
          promises (exec (handleEvent env e) s) !! w
          = Some (Rejected (unexpected_message t (getType e))))
  ∧ cancelled (this (exec (handleEvent env e) s)) = true
  ∧ sends (trace (exec (handleEvent env e) s))
    = sends (trace s)
      ++ (if truthy (userId (this s)) && truthy (deviceId (this s))
          then [(cancel_type, unknown_cancel (unexpected_message t (getType e)))]
          else []).
Proof.
  intros Hd He Ht Hne Hc.
  unfold exec. rewrite (handleEvent_violation env e s t) by done.
  unfold unexpected_message.
  set (m := "Unexpected message: expecting " +:+ t +:+ " but got " +:+ getType e).
  assert (_done (this (violation_state (CauseError m) s)) = false) as Hd'.
  { unfold violation_state. by destruct (_rejectEvent (this s)). }
  destruct (cancel_error_live env m _ Hd') as (Hc1 & Hc2 & Hc3 & Hc4 & Hc5).
  unfold exec in *.
  repeat split.
  - rewrite Hc2. unfold violation_state. by destruct (_rejectEvent (this s)).
  - rewrite Hc3. unfold violation_state. by destruct (_rejectEvent (this s)) eqn:E.
  - intros w Hw Hp. apply Hc5; [|done].
    unfold violation_state. rewrite Hw. cbn. by apply settle_pending.
  - exact Hc1.
  - rewrite Hc4. unfold violation_state.
    by destruct (_rejectEvent (this s)).
Qed.

Lemma protocol_violation_witness :
  sends (trace (exec (handleEvent alice_sas (event_of_type mac_type))
                  (run alice_sas [OpVerify; OpWaitForEvent key_type] bob_transaction)))
  = [(cancel_type, unknown_cancel (unexpected_message key_type mac_type))].
Proof.
  exact (proj2 (proj2 (proj2 (proj2
    (protocol_violation alice_sas
       (run alice_sas [OpVerify; OpWaitForEvent key_type] bob_transaction)
       (event_of_type mac_type) key_type
       eq_refl eq_refl ltac:(discriminate) ltac:(discriminate) ltac:(discriminate)))))).
Defined.

(** ** Remote cancellation *)

Lemma handleEvent_remote_cancel env e s :
  _done (this s) = false → getType e = cancel_type →
  _expectedEvent (this s) ≠ Some cancel_type →
  handleEvent env e s
  = match _reject (this s) with
    | Some p => call_reject p (other_side_cancelled (getContent e))
                  (with_this (set_reject None) s)
    | None => (Normal tt, s)
    end.
Proof.
  intros Hd Ht He. unfold handleEvent. js_unfold. rewrite Hd, Ht.
  rewrite bool_decide_eq_false_2 by congruence.
  rewrite String.eqb_refl. cbn.
  destruct (_reject (this s)) eqn:Hr; [done|].
  f_equal. apply with_this_id. by apply set_reject_id.
Qed.

(** Only [verify] installs the reject closure. *)
Lemma step_no_reject env op s :
  op ≠ OpVerify → _reject (this s) = None → _reject (this (step env op s)) = None.
Proof. intros Hop H. destruct op; try done; js_crush; congruence. Qed.

Lemma never_verified_no_reject env ops s :
  OpVerify ∉ ops → _reject (this s) = None → _reject (this (run env ops s)) = None.
Proof.
  revert s. induction ops as [|op ops IH]; intros s Hv H; [done|].
  apply not_elem_of_cons in Hv as [Hop Hv].
  cbn. apply IH; [done|]. by apply step_no_reject.
Qed.

(** C6: on a transaction that is not done, whose [verify()] promise [p] is
    pending and which does not await [m.key.verification.cancel], a remote
    cancellation rejects [p] with an error carrying the reason and code of
    the event, marks the transaction done and sends nothing; when
    [verify()] was never called there is no reject closure and the event
    changes nothing. *)
Theorem remote_cancellation env s e :
  _done (this s) = false → getType e = cancel_type →
  _expectedEvent (this s) ≠ Some cancel_type →
  (∀ p, _reject (this s) = Some p → promises s !! p = Some Pending →
        promises (exec (handleEvent env e) s) !! p
        = Some (Rejected (CauseError
                  ("Other side cancelled verification because "
                   +:+ template (reason (getContent e))
                   +:+ " (" +:+ template (code (getContent e)) +:+ ")")))
        ∧ _done (this (exec (handleEvent env e) s)) = true
        ∧ sends (trace (exec (handleEvent env e) s)) = sends (trace s)
        ∧ emits (trace (exec (handleEvent env e) s)) = emits (trace s))
  ∧ (_reject (this s) = None → handleEvent env e s = (Normal tt, s))
  ∧ (∀ uid did start req ops,
       s = run env ops (constructor uid did start req) → OpVerify ∉ ops →
       handleEvent env e s = (Normal tt, s)).
Proof.
  intros Hd Ht He.
  assert (_reject (this s) = None → handleEvent env e s = (Normal tt, s)) as Hnone.
  { intros Hr. by rewrite handleEvent_remote_cancel, Hr. }
  split; [|split; [exact Hnone|]].
  - intros p Hr Hp. unfold exec.
    rewrite handleEvent_remote_cancel, Hr by done.
    destruct s as [[uid did st rq c d pr tm ex rv rj rs rjt sd] ps nt ar tr].
    cbn in *. js_crush; trace_simpl; repeat split; by apply settle_pending.
  - intros uid did start req ops Hs Hv. apply Hnone. rewrite Hs.
    by apply never_verified_no_reject.
Qed.

Lemma remote_cancellation_witness :
  promises (exec (handleEvent alice_sas rejected_by_user)
              (run alice_sas [OpVerify; OpWaitForEvent key_type] bob_transaction)) !! 0
  = Some (Rejected (CauseError
            "Other side cancelled verification because rejected (m.user)")).
Proof.
  exact (proj1 (proj1
    (remote_cancellation alice_sas
       (run alice_sas [OpVerify; OpWaitForEvent key_type] bob_transaction)
       rejected_by_user eq_refl eq_refl ltac:(discriminate)) 0 eq_refl eq_refl)).
Defined.

(** C10: handling a remote [m.key.verification.cancel] never changes
    [cancelled]; when it rejects the pending [verify()] promise the
    transaction becomes done with [cancelled] as it was; and no call other
    than those that run [cancel] changes [cancelled]. *)
Theorem remote_cancel_keeps_cancelled env s :
  (∀ e, getType e = cancel_type →
        cancelled (this (exec (handleEvent env e) s)) = cancelled (this s)
        ∧ (_done (this s) = false → _expectedEvent (this s) ≠ Some cancel_type →
           isSome (_reject (this s)) = true →
           _done (this (exec (handleEvent env e) s)) = true))
  ∧ (∀ op, may_cancel op = false →
           cancelled (this (step env op s)) = cancelled (this s))
  ∧ (∀ c, _done (this s) = false →
          cancelled (this (exec (cancel env c) s)) = true).
Proof.
  split; [|split].
  - intros e Ht. split.
    + js_crush; try congruence.
      all: match goal with
           | E : (getType _ =? cancel_type)%string = false |- _ =>
               rewrite Ht, String.eqb_refl in E; discriminate E
           end.
    + intros Hd He Hr. unfold exec.
      rewrite handleEvent_remote_cancel by done.
      destruct (_reject (this s)); [|done]. js_crush; done.
  - intros op Hop. destruct op; try discriminate Hop.
    + js_crush; congruence.
    + cbn in Hop. apply negb_false_iff in Hop. js_crush; congruence.
    + js_crush; congruence.
    + js_crush; congruence.
    + apply done_keeps_cancelled.
  - intros c Hd. by apply cancel_sets_cancelled.
Qed.

Lemma remote_cancel_keeps_cancelled_witness :
  cancelled (this (exec (handleEvent alice_sas rejected_by_user)
                     (run alice_sas [OpVerify; OpWaitForEvent key_type] bob_transaction)))
  = false
  ∧ _done (this (exec (handleEvent alice_sas rejected_by_user)
                   (run alice_sas [OpVerify; OpWaitForEvent key_type] bob_transaction)))
    = true.
Proof.
  pose proof (proj1 (remote_cancel_keeps_cancelled alice_sas
    (run alice_sas [OpVerify; OpWaitForEvent key_type] bob_transaction))
    rejected_by_user eq_refl) as [H1 H2].
  split; [exact H1|].
  apply H2; [reflexivity | discriminate | reflexivity].
Defined.

(** ** [switchStartEvent] *)

(** C9: when [canSwitchStartEvent] refuses (as the base class always does),
    [switchStartEvent] changes nothing, waiter or not; when it accepts and
    a reject handle for the awaited event is present, that handle is
    cleared and the waiter is rejected with a [SwitchStartEventError]
    carrying the new event, [startEvent] staying as it was; when it accepts
    and there is no such handle, [startEvent] becomes the new event. *)
Theorem switchStartEvent_cases env s event :
  (canSwitchStartEvent env event = false →
   switchStartEvent env event s = (Normal tt, s))
  ∧ (∀ uid did te, canSwitchStartEvent (base_class uid did te) event = false)
  ∧ (canSwitchStartEvent env event = true →
     ∀ w, _rejectEvent (this s) = Some w →
          switchStartEvent env event s
          = (Normal tt,
             with_promises (settle w (Rejected (SwitchStartEventError event)))
               (with_this (set_rejectEvent None) s))
          ∧ startEvent (this (exec (switchStartEvent env event) s))
            = startEvent (this s)
          ∧ (promises s !! w = Some Pending →
             promises (exec (switchStartEvent env event) s) !! w
             = Some (Rejected (SwitchStartEventError event))))
  ∧ (canSwitchStartEvent env event = true →
     _rejectEvent (this s) = None →
     switchStartEvent env event s
     = (Normal tt, with_this (set_startEvent (Some event)) s)).
Proof.
  repeat split.
  - intros H. unfold switchStartEvent. by rewrite H.
  - unfold switchStartEvent, exec. js_unfold. by rewrite H, H0.
  - unfold switchStartEvent, exec. js_unfold. by rewrite H, H0.
  - intros Hp. unfold switchStartEvent, exec. js_unfold. rewrite H, H0. cbn.
    by apply settle_pending.
  - intros H H0. unfold switchStartEvent. js_unfold. by rewrite H, H0.
Qed.

Lemma switchStartEvent_cases_witness :
  switchStartEvent alice (event_of_type "m.key.verification.start")
    (run alice [OpVerify; OpWaitForEvent key_type] bob_transaction)
  = (Normal tt, run alice [OpVerify; OpWaitForEvent key_type] bob_transaction)
  ∧ promises (exec (switchStartEvent alice_sas (event_of_type "m.key.verification.start"))
                (run alice_sas [OpVerify; OpWaitForEvent key_type] bob_transaction)) !! 1
    = Some (Rejected (SwitchStartEventError (event_of_type "m.key.verification.start")))
  ∧ startEvent (this (exec (switchStartEvent alice_sas (event_of_type "m.key.verification.start"))
                        (run alice_sas [OpVerify] bob_transaction)))
    = Some (event_of_type "m.key.verification.start").
Proof.
  split; [|split].
  - exact (proj1 (switchStartEvent_cases alice
             (run alice [OpVerify; OpWaitForEvent key_type] bob_transaction)
             (event_of_type "m.key.verification.start")) eq_refl).
  - exact (proj2 (proj2 (proj1 (proj2 (proj2 (switchStartEvent_cases alice_sas
             (run alice_sas [OpVerify; OpWaitForEvent key_type] bob_transaction)
             (event_of_type "m.key.verification.start"))))
             eq_refl 1 eq_refl)) eq_refl).
  - rewrite (f_equal (λ r, startEvent (this r.2))
               (proj2 (proj2 (proj2 (switchStartEvent_cases alice_sas
                  (run alice_sas [OpVerify] bob_transaction)
                  (event_of_type "m.key.verification.start")))) eq_refl eq_refl)
             : startEvent (this (exec _ _)) = _).
    reflexivity.
Defined.

(** ** [_verifyKeys] *)

Section VerifyKeysFacts.

Context {DeviceInfo KeyInfo : Type}.
Context (getStoredDevice : string → option string → Completion (option DeviceInfo)).
Context (getStoredCrossSigningForUser : string → Completion (option IdValue)).
Context (fromStorage : list (string * option string) → option string
                       → Completion DeviceInfo).
Context (verifier : string → DeviceInfo → KeyInfo → option Cause).
Context (setDeviceVerified : string → option string → option Cause).

Local Abbreviation verify_each' :=
  (verify_each getStoredDevice getStoredCrossSigningForUser fromStorage verifier).
Local Abbreviation _verifyKeys' :=
  (_verifyKeys getStoredDevice getStoredCrossSigningForUser fromStorage verifier
     setDeviceVerified).
Local Abbreviation find_device' :=
  (find_device getStoredDevice getStoredCrossSigningForUser fromStorage).
Local Abbreviation device_for' :=
  (device_for getStoredDevice getStoredCrossSigningForUser fromStorage).
Local Abbreviation resolves' :=
  (resolves getStoredDevice getStoredCrossSigningForUser fromStorage).
Local Abbreviation recorded' :=
  (recorded getStoredDevice getStoredCrossSigningForUser fromStorage).
Local Abbreviation first_failure' :=
  (first_failure getStoredDevice getStoredCrossSigningForUser fromStorage verifier).
Local Abbreviation unresolved_warnings' :=
  (unresolved_warnings getStoredDevice getStoredCrossSigningForUser fromStorage).
Local Abbreviation mark_each' := (mark_each setDeviceVerified).
Local Abbreviation mark_failure' := (mark_failure setDeviceVerified).
Local Abbreviation attempted' := (attempted setDeviceVerified).

Lemma marks_app (t1 t2 : list (@KeyEffect DeviceInfo KeyInfo)) :
  marks (t1 ++ t2) = marks t1 ++ marks t2.
Proof. apply omap_app. Qed.

Lemma warnings_app (t1 t2 : list (@KeyEffect DeviceInfo KeyInfo)) :
  warnings (t1 ++ t2) = warnings t1 ++ warnings t2.
Proof. apply omap_app. Qed.

(** One turn of the first loop, in terms of [find_device]. *)
Lemma verify_each_cons userId keyId keyInfo rest vd :
  verify_each' userId ((keyId, keyInfo) :: rest) vd
  = match find_device' userId keyId with
    | Throw e => throw e
    | Normal (Some device) =>
        call_verifier verifier keyId device keyInfo;;
        verify_each' userId rest (vd ++ [split_colon_second keyId])
    | Normal None =>
        modify (λ t, t ++ [Warn ("verification: Could not find device "
                                 +:+ template (split_colon_second keyId)
                                 +:+ " to verify")]);;
        verify_each' userId rest vd
    end.
Proof.
  cbn [verify_each]. unfold find_device.
  destruct (getStoredDevice userId (split_colon_second keyId)) as [[device|]|e];
    [done| |done].
  destruct (getStoredCrossSigningForUser userId) as [[id|]|e]; [|done..].
  unfold answer, mbind, Js_bind. cbn beta iota zeta.
  destruct (id_is id (split_colon_second keyId)); [|done].
  by destruct (fromStorage [(keyId, split_colon_second keyId)]
                 (split_colon_second keyId)).
Qed.

Lemma recorded_cons userId (entry : string * KeyInfo) rest :
  recorded' userId (entry :: rest)
  = match device_for' userId entry.1 with
    | Some _ => split_colon_second entry.1 :: recorded' userId rest
    | None => recorded' userId rest
    end.
Proof.
  unfold recorded. destruct (device_for' userId entry.1) eqn:H.
  - rewrite filter_cons_True; [done|]. unfold resolves. by rewrite H.
  - rewrite filter_cons_False; [done|]. unfold resolves. by rewrite H.
Qed.

Lemma unresolved_warnings_cons userId (entry : string * KeyInfo) rest :
  unresolved_warnings' userId (entry :: rest)
  = match device_for' userId entry.1 with
    | Some _ => unresolved_warnings' userId rest
    | None =>
        ("verification: Could not find device "
         +:+ template (split_colon_second entry.1) +:+ " to verify")
        :: unresolved_warnings' userId rest
    end.
Proof.
  unfold unresolved_warnings. destruct (device_for' userId entry.1) eqn:H.
  - rewrite filter_cons_False; [done|]. unfold resolves. by rewrite H.
  - rewrite filter_cons_True; [done|]. unfold resolves. by rewrite H.
Qed.

(** The first loop: it stops at the first lookup that fails or key the
    verifier refuses, and otherwise records the device ids of the keys
    that resolve, warning about the others; it marks nothing. *)
Lemma verify_each_spec userId keys :
  ∀ vd t,
    marks (verify_each' userId keys vd t).2 = marks t
    ∧ match first_failure' userId keys with
      | Some e => (verify_each' userId keys vd t).1 = Throw e
      | None =>
          (verify_each' userId keys vd t).1 = Normal (vd ++ recorded' userId keys)
          ∧ warnings (verify_each' userId keys vd t).2
            = warnings t ++ unresolved_warnings' userId keys
      end.
Proof.
  induction keys as [|[keyId keyInfo] rest IH]; intros vd t.
  - cbn. by rewrite !app_nil_r.
  - rewrite verify_each_cons, recorded_cons, unresolved_warnings_cons.
    cbn [first_failure fst snd]. unfold device_for.
    destruct (find_device' userId keyId) as [[device|]|e].
    + unfold call_verifier. js_unfold.
      destruct (verifier keyId device keyInfo) as [e|]; cbn.
      * by rewrite marks_app, app_nil_r.
      * specialize (IH (vd ++ [split_colon_second keyId])
                       (t ++ [VerifierCalled keyId device keyInfo])).
        rewrite marks_app, warnings_app, !app_nil_r in IH.
        destruct IH as [IH1 IH2]. split; [done|].
        destruct (first_failure' userId rest); [done|].
        by rewrite <- app_assoc in IH2.
    + js_unfold. cbn.
      specialize (IH vd (t ++ [Warn ("verification: Could not find device "
                                     +:+ template (split_colon_second keyId)
                                     +:+ " to verify")])).
      rewrite marks_app, warnings_app, !app_nil_r in IH.
      destruct IH as [IH1 IH2]. split; [done|].
      destruct (first_failure' userId rest); [done|].
      by rewrite <- app_assoc in IH2.
    + by js_unfold.
Qed.

(** The second loop: it marks the recorded devices in order and stops at
    the first one that cannot be marked. *)
Lemma mark_each_spec userId ds :
  ∀ t : list (@KeyEffect DeviceInfo KeyInfo),
    (mark_each' userId ds t).1
    = match mark_failure' userId ds with
      | Some e => Throw e
      | None => Normal tt
      end
    ∧ marks (mark_each' userId ds t).2
      = marks t ++ ((λ d, (userId, d)) <$> attempted' userId ds)
    ∧ warnings (mark_each' userId ds t).2 = warnings t.
Proof.
  induction ds as [|d rest IH]; intros t.
  - cbn. by rewrite app_nil_r.
  - cbn [mark_each mark_failure attempted]. js_unfold.
    destruct (setDeviceVerified userId d) as [e|]; cbn.
    + by rewrite marks_app, warnings_app, app_nil_r.
    + destruct (IH (t ++ [SetDeviceVerified userId d])) as (IH1 & IH2 & IH3).
      rewrite marks_app, warnings_app, app_nil_r in *.
      repeat split; try done. by rewrite IH2, <- app_assoc.
Qed.

Lemma find_device_failure userId keyId e :
  find_device' userId keyId = Throw e →
  (∃ d, getStoredDevice userId d = Throw e)
  ∨ getStoredCrossSigningForUser userId = Throw e
  ∨ (∃ k d, fromStorage k d = Throw e).
Proof.
  unfold find_device.
  destruct (getStoredDevice userId (split_colon_second keyId))
    as [[device|]|e'] eqn:Hd; [done| |].
  - destruct (getStoredCrossSigningForUser userId) as [[id|]|e'']; [|done|].
    + destruct (id_is id (split_colon_second keyId)); [|done].
      destruct (fromStorage [(keyId, split_colon_second keyId)]
                  (split_colon_second keyId)) eqn:Hf; [done|].
      intros [= <-]. right. right. eauto.
    + intros [= <-]. right. by left.
  - intros [= <-]. left. eauto.
Qed.

Lemma first_failure_origin userId keys e :
  first_failure' userId keys = Some e →
  (∃ k d i, verifier k d i = Some e)
  ∨ (∃ d, getStoredDevice userId d = Throw e)
  ∨ getStoredCrossSigningForUser userId = Throw e
  ∨ (∃ k d, fromStorage k d = Throw e).
Proof.
  induction keys as [|[keyId keyInfo] rest IH]; cbn; [done|].
  destruct (find_device' userId keyId) as [[device|]|e'] eqn:Hf; [|done|].
  - destruct (verifier keyId device keyInfo) eqn:H; [|done].
    intros [= <-]. left. eauto.
  - intros [= <-]. right. by apply (find_device_failure userId keyId).
Qed.

Lemma mark_failure_origin userId ds e :
  mark_failure' userId ds = Some e → ∃ d, setDeviceVerified userId d = Some e.
Proof.
  induction ds as [|d rest IH]; cbn; [done|].
  destruct (setDeviceVerified userId d) eqn:H; [|done].
  intros [= <-]. eauto.
Qed.

Lemma mark_all userId ds :
  (∀ d, d ∈ ds → setDeviceVerified userId d = None) →
  mark_failure' userId ds = None ∧ attempted' userId ds = ds.
Proof.
  induction ds as [|d rest IH]; intros H; cbn; [done|].
  rewrite (H d) by apply list_elem_of_here.
  destruct IH as [-> ->]; [|done].
  intros d' Hd'. apply H. by apply list_elem_of_further.
Qed.

(** No device id is recorded exactly when no key identifier resolves. *)
Lemma recorded_nil userId (keys : list (string * KeyInfo)) :
  recorded' userId keys = [] ↔ ∀ entry, entry ∈ keys → resolves' userId entry = false.
Proof.
  induction keys as [|entry rest IH].
  - split; [|done]. intros _ entry H. by apply not_elem_of_nil in H.
  - rewrite recorded_cons. unfold resolves at 1.
    destruct (device_for' userId entry.1) eqn:Hd.
    + split; [done|]. intros H.
      specialize (H entry (list_elem_of_here _ _)).
      unfold resolves in H. by rewrite Hd in H.
    + rewrite IH. split.
      * intros H e He. apply elem_of_cons in He as [->|He]; [|by apply H].
        unfold resolves. by rewrite Hd.
      * intros H e He. apply H. by apply list_elem_of_further.
Qed.

(** C7, amended: a device lookup that fails or a key the verifier
    refuses makes the whole batch fail with that error, before any device
    is marked; when neither happens, the batch fails with "No devices
    could be verified" if no key identifier resolved, and otherwise warns
    about the keys that did not resolve and marks the recorded device ids
    one at a time, in order, succeeding when every marking succeeds and
    stopping at the first that fails.  Provided no collaborator raises
    that very error, the batch fails with "No devices could be verified"
    exactly when no lookup fails, the verifier refuses no key and no key
    identifier resolves. *)
Theorem verifyKeys_batch userId keys :
  (∀ e, first_failure' userId keys = Some e →
        (_verifyKeys' userId keys []).1 = Throw e
        ∧ marks (_verifyKeys' userId keys []).2 = [])
  ∧ (first_failure' userId keys = None → recorded' userId keys = [] →
     (_verifyKeys' userId keys []).1 = Throw no_devices
     ∧ marks (_verifyKeys' userId keys []).2 = [])
  ∧ (first_failure' userId keys = None → recorded' userId keys ≠ [] →
     (_verifyKeys' userId keys []).1
     = match mark_failure' userId (recorded' userId keys) with
       | Some e => Throw e
       | None => Normal tt
       end
     ∧ marks (_verifyKeys' userId keys []).2
       = (λ d, (userId, d)) <$> attempted' userId (recorded' userId keys)
     ∧ warnings (_verifyKeys' userId keys []).2 = unresolved_warnings' userId keys)
  ∧ (first_failure' userId keys = None → recorded' userId keys ≠ [] →
     (∀ d, d ∈ recorded' userId keys → setDeviceVerified userId d = None) →
     (_verifyKeys' userId keys []).1 = Normal tt
     ∧ marks (_verifyKeys' userId keys []).2
       = (λ d, (userId, d)) <$> recorded' userId keys)
  ∧ ((∀ d, getStoredDevice userId d ≠ Throw no_devices) →
     getStoredCrossSigningForUser userId ≠ Throw no_devices →
     (∀ k d, fromStorage k d ≠ Throw no_devices) →
     (∀ k d i, verifier k d i ≠ Some no_devices) →
     (∀ d, setDeviceVerified userId d ≠ Some no_devices) →
     ((_verifyKeys' userId keys []).1 = Throw no_devices
      ↔ first_failure' userId keys = None ∧ recorded' userId keys = [])).
Proof.
  destruct (verify_each_spec userId keys [] []) as [Hm Hv].
  change (marks []) with (@nil (string * option string)) in Hm.
  change (warnings []) with (@nil string) in Hv.
  assert (∀ e, first_failure' userId keys = Some e →
               (_verifyKeys' userId keys []).1 = Throw e
               ∧ marks (_verifyKeys' userId keys []).2 = []) as H1.
  { intros e He. rewrite He in Hv. unfold _verifyKeys. js_unfold.
    destruct (verify_each' userId keys [] []) as [[vd|e'] t]; cbn in *; [done|].
    by injection Hv as ->. }
  assert (first_failure' userId keys = None → recorded' userId keys = [] →
          (_verifyKeys' userId keys []).1 = Throw no_devices
          ∧ marks (_verifyKeys' userId keys []).2 = []) as H2.
  { intros He Hr. rewrite He, Hr in Hv. destruct Hv as [Hv _].
    unfold _verifyKeys. js_unfold.
    destruct (verify_each' userId keys [] []) as [[vd|e'] t]; cbn in *; [|done].
    injection Hv as ->. by cbn. }
  assert (first_failure' userId keys = None → recorded' userId keys ≠ [] →
          (_verifyKeys' userId keys []).1
          = match mark_failure' userId (recorded' userId keys) with
            | Some e => Throw e
            | None => Normal tt
            end
          ∧ marks (_verifyKeys' userId keys []).2
            = (λ d, (userId, d)) <$> attempted' userId (recorded' userId keys)
          ∧ warnings (_verifyKeys' userId keys []).2
            = unresolved_warnings' userId keys) as H3.
  { intros He Hr. rewrite He in Hv. destruct Hv as [Hv Hw].
    unfold _verifyKeys. js_unfold.
    destruct (verify_each' userId keys [] []) as [[vd|e'] t]; cbn in *; [|done].
    injection Hv as ->.
    rewrite bool_decide_eq_false_2
      by (by destruct (recorded' userId keys)).
    destruct (mark_each_spec userId (recorded' userId keys) t) as (M1 & M2 & M3).
    rewrite M1, M2, M3, Hm, Hw. by cbn. }
  split; [exact H1|]. split; [exact H2|]. split; [exact H3|]. split.
  - intros He Hr Hall.
    destruct (H3 He Hr) as (E1 & E2 & _).
    destruct (mark_all userId _ Hall) as [F1 F2].
    by rewrite E1, E2, F1, F2.
  - intros Hdev Hcross Hfrom Hver Hset. split.
    + intros Hthrow.
      destruct (first_failure' userId keys) as [e|] eqn:He.
      * destruct (H1 e eq_refl) as [He' _]. rewrite He' in Hthrow.
        injection Hthrow as ->.
        destruct (first_failure_origin userId keys _ He)
          as [(k & d & i & Hk)|[[d Hd]|[Hc|(k & d & Hk)]]].
        -- by destruct (Hver k d i).
        -- by destruct (Hdev d).
        -- by destruct Hcross.
        -- by destruct (Hfrom k d).
      * split; [done|].
        destruct (recorded' userId keys) as [|d ds] eqn:Hr; [done|].
        destruct H3 as [E _]; [done..|]. rewrite E in Hthrow.
        destruct (mark_failure' userId (d :: ds)) as [e|] eqn:Hf; [|done].
        injection Hthrow as ->.
        destruct (mark_failure_origin userId _ _ Hf) as (d' & Hd').
        by destruct (Hset d').
    + intros [He Hr]. by apply H2.
Qed.

End VerifyKeysFacts.

(** A key identifier without a colon gives no device id; when the
    user's cross-signing identity has no id either, the two are equal,
    so the verifier is run and the device [undefined] is marked. *)
Lemma verifyKeys_undefined_id :
  _verifyKeys bob_devices no_master_key synthesised mac_verifier
    marking_works "@bob:example.org" [("MASTERKEY", "good mac")] []
  = (Normal tt,
     [VerifierCalled "MASTERKEY" "device undefined" "good mac";
      SetDeviceVerified "@bob:example.org" None]).
Proof. reflexivity. Qed.

(** C7, as the specification words it, fails on two batches: when the
    only key resolves but the verifier refuses it, no key is verified and
    yet the failure is the verifier's error, not "No devices could be
    verified"; and when a verified key is followed by one the verifier
    refuses, the batch fails although one key was verified. *)
Lemma stated_batch_fails :
  ¬ stated_batch bob_devices bob_cross_signing synthesised mac_verifier
      marking_works "@bob:example.org" [("ed25519:DEV1", "bad mac")]
  ∧ ¬ stated_batch bob_devices bob_cross_signing synthesised mac_verifier
        marking_works "@bob:example.org"
        [("ed25519:DEV1", "good mac"); ("ed25519:DEV2", "bad mac")].
Proof.
  split.
  - intros [[_ H] _].
    assert (filter (λ entry : string * string,
                      verified bob_devices bob_cross_signing synthesised
                        mac_verifier "@bob:example.org" entry = true)
              [("ed25519:DEV1", "bad mac")] = []) as Hf by reflexivity.
    specialize (H Hf). vm_compute in H. discriminate H.
  - intros [_ H].
    assert (filter (λ entry : string * string,
                      verified bob_devices bob_cross_signing synthesised
                        mac_verifier "@bob:example.org" entry = true)
              [("ed25519:DEV1", "good mac"); ("ed25519:DEV2", "bad mac")] ≠ [])
      as Hf by (vm_compute; discriminate).
    specialize (H Hf). vm_compute in H. discriminate H.
Qed.

Lemma verifyKeys_batch_witness :
  (_verifyKeys bob_devices bob_cross_signing synthesised mac_verifier
     marking_works "@bob:example.org" [("ed25519:DEV1", "good mac")] []).1
  = Normal tt
  ∧ marks (_verifyKeys bob_devices bob_cross_signing synthesised mac_verifier
             marking_works "@bob:example.org" [("ed25519:DEV1", "good mac")] []).2
    = [("@bob:example.org", Some "DEV1")].
Proof.
  apply (proj1 (proj2 (proj2 (proj2
    (verifyKeys_batch bob_devices bob_cross_signing synthesised mac_verifier
       marking_works "@bob:example.org" [("ed25519:DEV1", "good mac")]))))).
  - reflexivity.
  - vm_compute. discriminate.
  - intros d _. reflexivity.
Defined.



(** * Further properties of the code

    The rest of this file covers what the properties above leave out: the
    promise store and the timers across whole runs, [done], the timer
    callback, what [cancel] sends, the first call of [verify], the matched
    and the replayed event in [handleEvent], the parsing of key identifiers
    and the order of effects in [_verifyKeys], and the messages of
    [errors.js]. *)

Arguments notified : simpl never.
Arguments key_requests : simpl never.

(** ** The promise store *)

Lemma lookup_settle p v (ps : list PromiseState) q :
  settle p v ps !! q
  = if decide (p = q)
    then match ps !! p with Some Pending => Some v | o => o end
    else ps !! q.
Proof.
  unfold settle. destruct (decide (p = q)) as [->|Hne].
  - destruct (ps !! q) as [[]|] eqn:H; try done.
    apply list_lookup_insert_eq. by eapply lookup_lt_Some.
  - destruct (ps !! p) as [[]|]; try done. by apply list_lookup_insert_ne.
Qed.

Lemma length_settle p v (ps : list PromiseState) :
  length (settle p v ps) = length ps.
Proof. unfold settle. destruct (ps !! p) as [[]|]; by rewrite ?length_insert. Qed.

Lemma lookup_snoc (ps : list PromiseState) x q :
  (ps ++ [x]) !! q
  = if decide (q = length ps) then Some x
    else if decide (q < length ps)%nat then ps !! q else None.
Proof.
  repeat case_decide; subst.
  - by rewrite lookup_app_r, Nat.sub_diag.
  - by apply lookup_app_l.
  - apply lookup_ge_None_2. rewrite length_app. cbn. lia.
Qed.

Lemma filter_ne_singleton (h : nat) : filter (λ x, x ≠ h) [h] = [].
Proof. by rewrite filter_cons_False by (intros H; by apply H). Qed.

Lemma filter_ne_nil (h : nat) : filter (λ x, x ≠ h) [] = [].
Proof. done. Qed.

Lemma settled_kept_refl ps : settled_kept ps ps.
Proof. split; [lia|]. auto. Qed.

Lemma settled_kept_trans ps1 ps2 ps3 :
  settled_kept ps1 ps2 → settled_kept ps2 ps3 → settled_kept ps1 ps3.
Proof. intros [L1 H1] [L2 H2]. split; [lia|]. eauto. Qed.

Lemma settled_kept_settle p v ps : settled_kept ps (settle p v ps).
Proof.
  split; [by rewrite length_settle|]. intros q x Hq Hx. by apply settle_settled.
Qed.

Lemma settled_kept_snoc ps x : settled_kept ps (ps ++ [x]).
Proof.
  split; [rewrite length_app; lia|]. intros q y Hq _. by apply lookup_app_l_Some.
Qed.

Lemma step_settled_kept env op s :
  settled_kept (promises s) (promises (step env op s)).
Proof.
  destruct op; js_crush;
    repeat first [ apply settled_kept_refl
                 | apply settled_kept_settle
                 | apply settled_kept_snoc
                 | eapply settled_kept_trans; [|apply settled_kept_settle]
                 | eapply settled_kept_trans; [|apply settled_kept_snoc] ].
Qed.


(** ** The invariant of sequences of calls *)

Ltac store_norm :=
  repeat first
    [ rewrite lookup_settle | rewrite lookup_snoc | rewrite length_settle
    | rewrite length_app | rewrite filter_ne_singleton | rewrite filter_ne_nil ];
  cbn [length].

Ltac store_solve :=
  repeat match goal with
         | H : settled _ _ |- _ => destruct H as (? & ? & ?)
         | H : _ ∧ _ |- _ => destruct H
         | H : _ ∨ _ |- _ => destruct H
         | H : context [match ?x with _ => _ end] |- _ => destruct x eqn:?
         end;
  simplify_eq/=;
  repeat match goal with
         | H : ?ps !! ?p = Some _ |- _ =>
             lazymatch goal with
             | _ : (p < length ps)%nat |- _ => fail
             | _ => pose proof (lookup_lt_Some _ _ _ H)
             end
         end;
  unfold settled;
  repeat split;
  try (intros [=]);
  store_norm;
  repeat case_decide; simplify_eq/=;
  repeat match goal with
         | H : ?x = _ |- context [?x] => rewrite H
         end;
  try lia; try done; eauto.

Ltac wf_start s :=
  destruct s as [[uid did st rq c d pr tm ex rv rj rs rjt sd] ps nt ar tr];
  unfold well_formed; cbn.

Lemma wf_cancel env e s : well_formed s → well_formed (exec (cancel env e) s).
Proof. wf_start s. intros H. js_crush; store_solve. Qed.

Lemma wf_waitForEvent t s : well_formed s → well_formed (exec (_waitForEvent t) s).
Proof. wf_start s. intros H. js_crush; store_solve. Qed.

Lemma wf_switchStartEvent env e s :
  well_formed s → well_formed (exec (switchStartEvent env e) s).
Proof. wf_start s. intros H. js_crush; store_solve. Qed.

Lemma wf_verify env s : well_formed s → well_formed (exec (verify env) s).
Proof. wf_start s. intros H. js_crush; store_solve. Qed.

Lemma wf_done env s : well_formed s → well_formed (exec (done env) s).
Proof. wf_start s. intros H. js_crush; store_solve. Qed.

Lemma wf_handleEvent env e s :
  well_formed s → well_formed (exec (handleEvent env e) s).
Proof.
  intros H. unfold exec, handleEvent.
  unfold mbind at 1, Js_bind at 1, get at 1.
  destruct (_done (this s)) eqn:Hd; [done|].
  destruct (bool_decide (Some (getType e) = _expectedEvent (this s))).
  { revert H Hd. wf_start s. intros H Hd. js_crush; store_solve. }
  destruct (getType e =? cancel_type)%string.
  { revert H Hd. wf_start s. intros H Hd. js_crush; store_solve. }
  destruct (truthy (_expectedEvent (this s))); [|done].
  unfold mbind at 1, Js_bind at 1.
  destruct (modify_this (set_expectedEvent None) s) as [[[]|] s1] eqn:H1;
    [|discriminate H1].
  injection H1 as <-.
  unfold mbind at 1, Js_bind at 1.
  match goal with
  | |- well_formed (match ?m with _ => _ end).2 =>
      destruct m as [[[]|?] s2] eqn:H2
  end.
  - apply (wf_cancel env).
    revert H Hd H2. wf_start s. intros H Hd H2.
    destruct rj; js_crush; simplify_eq/=; store_solve.
  - destruct (_rejectEvent (this s)); js_crush; discriminate.
Qed.

Lemma wf_timer_fires env h s :
  well_formed s → well_formed (step env (OpTimerFires h) s).
Proof.
  intros H. cbn. case_bool_decide as Hin; [|done].
  unfold exec, timeout_callback.
  unfold mbind at 1, Js_bind at 1, get at 1.
  assert (well_formed (with_armed (filter (λ x, x ≠ h)) s)) as H'.
  { revert H Hin. wf_start s. intros (Hp & Hw & Ht) Hin.
    split; [done|]. split; [done|].
    destruct tm as [h'|]; [|by subst ar].
    destruct Ht as [Hd [->| ->]]; [|by apply elem_of_nil in Hin].
    apply list_elem_of_singleton in Hin as ->.
    split; [done|]. right. apply filter_ne_singleton. }
  cbn [this with_armed].
  destruct (negb (_done (this s)) && negb (cancelled (this s)));
    [by apply (wf_cancel env)|done].
Qed.

Lemma step_well_formed env op s : well_formed s → well_formed (step env op s).
Proof.
  destruct op.
  - apply wf_waitForEvent.
  - apply wf_handleEvent.
  - apply wf_switchStartEvent.
  - apply wf_verify.
  - apply wf_done.
  - apply wf_cancel.
  - apply wf_timer_fires.
Qed.

Lemma reachable_well_formed env s : reachable env s → well_formed s.
Proof.
  intros (uid & did & start & req & ops & ->).
  assert (well_formed (constructor uid did start req)) as H by done.
  revert H. generalize (constructor uid did start req).
  induction ops as [|op ops IH]; intros s H; [done|].
  cbn. apply IH. by apply step_well_formed.
Qed.

(** X2: after any sequence of calls, the promise stored in [_promise] is
    in the store, and it is pending exactly when [verify] created it (its
    resolve closure is there) and [_done] is unset; once [_done] is set the
    closures were there and the promise is settled. *)
Theorem verify_promise_settled_once env s p :
  reachable env s → _promise (this s) = Some p →
  (promises s !! p = Some Pending
   ↔ _done (this s) = false ∧ _resolve (this s) = Some p)
  ∧ (_done (this s) = true → _resolve (this s) = Some p)
  ∧ is_Some (promises s !! p).
Proof.
  intros Hr Hp. apply reachable_well_formed in Hr.
  destruct Hr as (H & _ & _). rewrite Hp in H. destruct H as [Hlt H].
  destruct (lookup_lt_is_Some_2 _ _ Hlt) as [x Hx].
  split; [|split]; [| |by exists x].
  - destruct (_resolve (this s)) as [q|].
    + destruct H as (-> & H & _). destruct (_done (this s)).
      * destruct H as (y & Hy & Hne). split; [congruence|]. by intros [? _].
      * destruct H as [_ Hpen]. by split.
    + destruct H as (_ & Hd & (y & Hy & Hne)). split; [congruence|]. by intros [_ ?].
  - intros Hd. destruct (_resolve (this s)) as [q|].
    + by destruct H as (-> & _).
    + destruct H as (_ & Hd' & _). congruence.
Qed.

Lemma verify_promise_settled_once_witness :
  reachable alice_sas awaiting_key
  ∧ (promises awaiting_key !! 0 = Some Pending
     ↔ _done (this awaiting_key) = false ∧ _resolve (this awaiting_key) = Some 0).
Proof.
  assert (reachable alice_sas awaiting_key) as Hr.
  { exists (Some "@bob:example.org"), (Some "BOBDEVICE"), None, true,
      [OpVerify; OpWaitForEvent key_type]. reflexivity. }
  split; [exact Hr|].
  exact (proj1 (verify_promise_settled_once alice_sas awaiting_key 0 Hr eq_refl)).
Defined.

(** X3: after any sequence of calls, a reject handle in [_rejectEvent]
    belongs to a pending promise, which is also the one [_resolveEvent]
    resolves and is not the promise of [verify]. *)
Theorem live_waiter_pending env s w :
  reachable env s → _rejectEvent (this s) = Some w →
  promises s !! w = Some Pending
  ∧ _resolveEvent (this s) = Some w
  ∧ _promise (this s) ≠ Some w.
Proof.
  intros Hr Hw. apply reachable_well_formed in Hr.
  destruct Hr as (_ & H & _). rewrite Hw in H.
  destruct (_resolveEvent (this s)) as [w'|]; [|done].
  destruct H as (_ & Hne & -> & Hp). done.
Qed.

Lemma live_waiter_pending_witness :
  reachable alice_sas awaiting_key ∧ promises awaiting_key !! 1 = Some Pending.
Proof.
  assert (reachable alice_sas awaiting_key) as Hr.
  { exists (Some "@bob:example.org"), (Some "BOBDEVICE"), None, true,
      [OpVerify; OpWaitForEvent key_type]. reflexivity. }
  split; [exact Hr|].
  exact (proj1 (live_waiter_pending alice_sas awaiting_key 1 Hr eq_refl)).
Defined.

(** X4: after any sequence of calls at most one timer is armed, and it is
    the one recorded in [_transactionTimeoutTimer]; once [_done] is set no
    timer is armed and none is recorded. *)
Theorem one_timer env s :
  reachable env s →
  (armed s = [] ∨ ∃ h, _transactionTimeoutTimer (this s) = Some h ∧ armed s = [h])
  ∧ (_done (this s) = true →
     _transactionTimeoutTimer (this s) = None ∧ armed s = []).
Proof.
  intros Hr. apply reachable_well_formed in Hr. destruct Hr as (_ & _ & H).
  destruct (_transactionTimeoutTimer (this s)) as [h|].
  - destruct H as [Hd [Ha|Ha]]; split; eauto; intros; congruence.
  - split; eauto.
Qed.

Lemma one_timer_witness :
  reachable alice_sas awaiting_key
  ∧ (armed awaiting_key = []
     ∨ ∃ h, _transactionTimeoutTimer (this awaiting_key) = Some h
            ∧ armed awaiting_key = [h]).
Proof.
  assert (reachable alice_sas awaiting_key) as Hr.
  { exists (Some "@bob:example.org"), (Some "BOBDEVICE"), None, true,
      [OpVerify; OpWaitForEvent key_type]. reflexivity. }
  split; [exact Hr|].
  exact (proj1 (one_timer alice_sas awaiting_key Hr)).
Defined.

(** X5: once a transaction is done, whatever led there, [cancel], [done],
    [handleEvent] and a firing timer change nothing at all: nothing is
    sent, emitted, settled or rearmed. *)
Theorem done_transaction_inert env s :
  reachable env s → _done (this s) = true →
  (∀ e, cancel env e s = (Normal tt, s))
  ∧ done env s = (Normal None, s)
  ∧ (∀ e, handleEvent env e s = (Normal tt, s))
  ∧ (∀ h, step env (OpTimerFires h) s = s).
Proof.
  intros Hr Hd. apply reachable_well_formed in Hr. destruct Hr as (_ & _ & H).
  assert (_transactionTimeoutTimer (this s) = None ∧ armed s = []) as [Ht Ha].
  { destruct (_transactionTimeoutTimer (this s)) as [h|]; [|done].
    destruct H as [Hd' _]. congruence. }
  repeat split.
  - intros e. by apply cancel_done_noop.
  - js_unfold. rewrite Ht. cbn. by rewrite Hd.
  - intros e. by apply handleEvent_done.
  - intros h. cbn. rewrite Ha.
    by rewrite bool_decide_eq_false_2 by apply not_elem_of_nil.
Qed.

Lemma done_transaction_inert_witness :
  cancel alice_sas timeoutException (step alice_sas OpDone awaiting_key)
  = (Normal tt, step alice_sas OpDone awaiting_key).
Proof.
  apply (done_transaction_inert alice_sas (step alice_sas OpDone awaiting_key)).
  - exists (Some "@bob:example.org"), (Some "BOBDEVICE"), None, true,
      [OpVerify; OpWaitForEvent key_type; OpDone]. vm_compute. reflexivity.
  - vm_compute. reflexivity.
Defined.

(** ** Promises the object no longer refers to *)

(** A promise of which the object holds no handle is out of reach of every
    call. *)
Lemma step_unreferenced env op s q :
  (q < length (promises s))%nat → ¬ referenced (this s) q →
  ¬ referenced (this (step env op s)) q
  ∧ promises (step env op s) !! q = promises s !! q.
Proof.
  unfold referenced.
  destruct s as [[uid did st rq c d pr tm ex rv rj rs rjt sd] ps nt ar tr].
  cbn. intros Hq Hn.
  assert (pr ≠ Some q ∧ rv ≠ Some q ∧ rj ≠ Some q ∧ rs ≠ Some q ∧ rjt ≠ Some q)
    as (H1 & H2 & H3 & H4 & H5) by (repeat split; intros ?; apply Hn; auto).
  clear Hn.
  destruct op; js_crush;
    (split; [intros [?|[?|[?|[?|?]]]]; simplify_eq;
             rewrite ?length_settle in *; first [done | congruence | lia]|]);
    store_norm; repeat case_decide; simplify_eq; first [done | congruence | lia].
Qed.

Lemma run_unreferenced env ops s q :
  (q < length (promises s))%nat → ¬ referenced (this s) q →
  promises (run env ops s) !! q = promises s !! q.
Proof.
  revert s. induction ops as [|op ops IH]; intros s Hq Hn; [done|].
  destruct (step_unreferenced env op s q Hq Hn) as [Hn' Heq].
  change (run env (op :: ops) s) with (run env ops (step env op s)).
  rewrite IH; [done| |done].
  destruct (lookup_lt_is_Some_2 _ _ Hq) as [x Hx].
  rewrite <- Heq in Hx. by eapply lookup_lt_Some.
Qed.

(** X6: on a transaction that is not done, a new [_waitForEvent] while an
    earlier waiter is still registered abandons that waiter: whatever is
    called afterwards, its promise stays as it was, so a waiter that was
    pending is never resolved or rejected. *)
Theorem second_wait_orphans_first env s w t ops :
  reachable env s → _done (this s) = false →
  _resolveEvent (this s) = Some w →
  promises (run env ops (exec (_waitForEvent t) s)) !! w = promises s !! w.
Proof.
  intros Hr Hd Hw. apply reachable_well_formed in Hr.
  destruct Hr as (Hp & Hwt & _). rewrite Hw in Hwt.
  destruct Hwt as (Hlt & Hne & Hrj).
  assert ((w < length (promises (exec (_waitForEvent t) s)))%nat
          ∧ ¬ referenced (this (exec (_waitForEvent t) s)) w
          ∧ promises (exec (_waitForEvent t) s) !! w = promises s !! w)
    as (H1 & H2 & H3).
  { unfold referenced. revert Hd Hw Hp Hlt Hne Hrj.
    destruct s as [[uid did st rq c d pr tm ex rv rj rs rjt sd] ps nt ar tr].
    cbn. intros -> -> Hp Hlt Hne Hrj. js_unfold. cbn.
    rewrite length_app. cbn. split; [lia|]. split.
    - intros [?|[?|[?|[?|?]]]]; simplify_eq; try lia;
        destruct pr as [p|]; try destruct rs as [q|];
        destruct Hp as (? & ? & ?); destruct_and?; simplify_eq; done.
    - by apply lookup_app_l. }
  by rewrite run_unreferenced.
Qed.

Lemma second_wait_orphans_first_witness :
  promises (run alice_sas [OpHandleEvent (event_of_type mac_type)]
              (exec (_waitForEvent mac_type) awaiting_key)) !! 1
  = Some Pending.
Proof.
  apply (second_wait_orphans_first alice_sas awaiting_key 1 mac_type
           [OpHandleEvent (event_of_type mac_type)]).
  - exists (Some "@bob:example.org"), (Some "BOBDEVICE"), None, true,
      [OpVerify; OpWaitForEvent key_type]. reflexivity.
  - reflexivity.
  - reflexivity.
Defined.

(** ** What [cancel] sends and emits *)

Lemma truthy_js_or o d : d ≠ "" → truthy (Some (js_or o d)) = true.
Proof.
  intros Hd. unfold js_or, truthy. destruct o as [x|].
  - destruct (String.eqb x "") eqn:E; apply negb_true_iff.
    + by apply String.eqb_neq.
    + done.
  - apply negb_true_iff. by apply String.eqb_neq.
Qed.

Lemma truthy_toString e : truthy (Some (toString e)) = true.
Proof.
  destruct e; cbn; unfold error_string; try done;
    try (destruct (String.eqb message "")); done.
Qed.

Lemma truthy_error_string name m :
  name ≠ "" → truthy (Some (error_string name m)) = true.
Proof.
  intros Hn. unfold error_string, truthy. apply negb_true_iff.
  destruct (String.eqb m ""); [by apply String.eqb_neq|].
  by destruct name.
Qed.

(** X7: [cancel] on a transaction that is not done emits ['cancel']
    exactly once and sends at most one message, and only when both the
    user id and the device id of the other party are known.  For every
    cause but the timeout the message is an [m.key.verification.cancel]
    whose code and reason are never empty; a cancel event that came from
    the other party is not sent back; and the cause is emitted as given
    unless it is an event, whose content [cancel] completes first. *)
Theorem cancel_messages env e s :
  _done (this s) = false →
  ∃ e' l,
    sends (trace (exec (cancel env e) s)) = sends (trace s) ++ l
    ∧ emits (trace (exec (cancel env e) s)) = emits (trace s) ++ [("cancel", e')]
    ∧ (length l ≤ 1)%nat
    ∧ (l ≠ [] → truthy (userId (this s)) = true ∧ truthy (deviceId (this s)) = true)
    ∧ (e ≠ timeoutException →
       ∀ ty c, (ty, c) ∈ l →
               ty = cancel_type ∧ truthy (code c) = true ∧ truthy (reason c) = true)
    ∧ (∀ ev, e = CauseEvent ev → getSender ev = userId (this s) → l = [])
    ∧ ((∀ ev, e ≠ CauseEvent ev) → e' = e).
Proof.
  intros Hd.
  destruct s as [[uid did st rq c d pr tm ex rv rj rs rjt sd] ps nt ar tr].
  cbn in Hd. subst d.
  js_crush; trace_simpl; eexists _, _;
    (split; [first [reflexivity | symmetry; apply app_nil_r]|]);
    (split; [reflexivity|]);
    (split; [cbn; lia|]);
    (split; [by intros|]).
  all: split; [intros Hne ty c' Hin;
             try (by apply elem_of_nil in Hin);
             apply list_elem_of_singleton in Hin; injection Hin as -> ->;
             cbn [code reason];
             rewrite ?truthy_js_or, ?truthy_toString, ?truthy_error_string by done; try done|].
  all: try solve [split;
    [ intros ev' Hev Hs; try done; simplify_eq; try done;
      match goal with
      | H : bool_decide _ = false |- _ => by apply bool_decide_eq_false in H
      end
    | intros Hev; try done; by destruct (Hev _ eq_refl) ]].
Qed.

Lemma cancel_messages_witness :
  ∃ e' l,
    sends (trace (exec (cancel alice (CauseError "user")) bob_transaction)) = l
    ∧ emits (trace (exec (cancel alice (CauseError "user")) bob_transaction))
      = [("cancel", e')]
    ∧ (length l ≤ 1)%nat.
Proof.
  destruct (cancel_messages alice (CauseError "user") bob_transaction eq_refl)
    as (e' & l & H1 & H2 & H3 & _).
  by exists e', l.
Defined.

(** ** After [verify]: one cancellation at most *)

Lemma step_cancel_counted env op s : cancel_counted s → cancel_counted (step env op s).
Proof.
  unfold cancel_counted.
  destruct s as [[uid did st rq c d pr tm ex rv rj rs rjt sd] ps nt ar tr].
  cbn. intros ([p Hp] & [r Hr] & Hl & Hs & He). subst pr rs.
  destruct d.
  - clear Hl. destruct op; js_crush; trace_simpl; repeat split; eauto; done.
  - destruct Hl as ([j Hj] & Hs0 & He0); [done|]. subst rjt.
    destruct op; js_crush; trace_simpl; rewrite ?Hs0, ?He0;
      repeat split; eauto; try done; cbn; lia.
Qed.

Lemma run_cancel_counted env ops s : cancel_counted s → cancel_counted (run env ops s).
Proof.
  revert s. induction ops as [|op ops IH]; intros s H; [done|].
  cbn. apply IH. by apply step_cancel_counted.
Qed.

(** X8: on a transaction whose first call is [verify()], whatever is
    called afterwards and however often [cancel()] runs (called directly,
    on a protocol violation or by the timer), at most one message is sent
    and ['cancel'] is emitted at most once; while the transaction is not
    done, nothing was sent or emitted. *)
Theorem cancel_once_after_verify env uid did start req ops :
  (length (sends (trace (run env (OpVerify :: ops) (constructor uid did start req)))) ≤ 1)%nat
  ∧ (length (emits (trace (run env (OpVerify :: ops) (constructor uid did start req)))) ≤ 1)%nat
  ∧ (_done (this (run env (OpVerify :: ops) (constructor uid did start req))) = false →
     sends (trace (run env (OpVerify :: ops) (constructor uid did start req))) = []
     ∧ emits (trace (run env (OpVerify :: ops) (constructor uid did start req))) = []).
Proof.
  assert (cancel_counted (run env (OpVerify :: ops) (constructor uid did start req)))
    as (_ & _ & Hl & Hs & He).
  { change (run env (OpVerify :: ops) (constructor uid did start req))
      with (run env ops (step env OpVerify (constructor uid did start req))).
    apply run_cancel_counted. unfold cancel_counted.
    js_crush; trace_simpl; repeat split; eauto; cbn; lia. }
  repeat split; try done; by apply Hl.
Qed.

Lemma cancel_once_after_verify_witness :
  (length (emits (trace (run alice_sas
                           [OpVerify; OpCancel (CauseError "one");
                            OpCancel (CauseError "two")] bob_transaction))) ≤ 1)%nat.
Proof.
  exact (proj1 (proj2 (cancel_once_after_verify alice_sas (Some "@bob:example.org")
                         (Some "BOBDEVICE") None true
                         [OpCancel (CauseError "one"); OpCancel (CauseError "two")]))).
Defined.

(** ** The timer callback *)

Lemma notified_snoc t e :
  notified (t ++ [e]) = (notified t + match e with OnVerifierFinished => 1 | _ => 0 end)%nat.
Proof. unfold notified. rewrite omap_app, length_app. by destruct e. Qed.

Lemma key_requests_snoc t e :
  key_requests (t ++ [e])
  = key_requests t ++ match e with CrossSigningKeysRequested d => [d] | _ => [] end.
Proof. unfold key_requests. rewrite omap_app. by destruct e. Qed.

Ltac trace_simpl' :=
  rewrite ?sends_snoc, ?emits_snoc, ?hook_starts_snoc, ?notified_snoc,
    ?key_requests_snoc;
  cbn; rewrite ?app_nil_r, ?Nat.add_0_r.

(** X9: an armed timer that fires on a transaction that is done or
    cancelled only disarms itself.  Otherwise it cancels the transaction
    with the timeout: the timeout event is sent when the other party is
    known, ['cancel'] is emitted with the timeout exception, and a pending
    promise of [verify] is rejected with it, which makes the transaction
    done. *)
Theorem timer_fires env h s :
  h ∈ armed s →
  (_done (this s) = true ∨ cancelled (this s) = true →
   step env (OpTimerFires h) s = with_armed (filter (λ x, x ≠ h)) s)
  ∧ (_done (this s) = false → cancelled (this s) = false →
     cancelled (this (step env (OpTimerFires h) s)) = true
     ∧ sends (trace (step env (OpTimerFires h) s))
       = sends (trace s)
         ++ (if truthy (userId (this s)) && truthy (deviceId (this s))
             then [(getType (newTimeoutError env), getContent (newTimeoutError env))]
             else [])
     ∧ emits (trace (step env (OpTimerFires h) s))
       = emits (trace s) ++ [("cancel", timeoutException)]
     ∧ (∀ p, _promise (this s) = Some p → _reject (this s) = Some p →
             promises s !! p = Some Pending →
             promises (step env (OpTimerFires h) s) !! p = Some (Rejected timeoutException)
             ∧ _done (this (step env (OpTimerFires h) s)) = true)).
Proof.
  intros Hin. cbn. rewrite bool_decide_eq_true_2 by done. split.
  - intros Hterm. unfold exec, timeout_callback. js_unfold. cbn.
    destruct (_done (this s)), (cancelled (this s)); try done.
    by destruct Hterm.
  - intros Hd Hc.
    destruct s as [[uid did st rq c d pr tm ex rv rj rs rjt sd] ps nt ar tr].
    cbn in *. subst c d.
    js_crush; trace_simpl; repeat split; try done;
      simplify_eq; by apply settle_pending.
Qed.

Lemma timer_fires_witness :
  0%nat ∈ armed awaiting_key
  ∧ cancelled (this (step alice_sas (OpTimerFires 0) awaiting_key)) = true
  ∧ emits (trace (step alice_sas (OpTimerFires 0) awaiting_key))
    = [("cancel", timeoutException)].
Proof.
  assert (0%nat ∈ armed awaiting_key) as Hin by (vm_compute; apply list_elem_of_here).
  split; [exact Hin|].
  destruct (proj2 (timer_fires alice_sas 0 awaiting_key Hin) eq_refl eq_refl)
    as (H1 & _ & H3 & _).
  split; [exact H1|exact H3].
Defined.

(** ** [done] *)

(** X10: [done()] on a transaction of a request that is not done and
    whose promise of [verify] is pending resolves that promise, sets
    [_done], tells the request once that the verifier finished, sends and
    emits nothing and leaves [cancelled] as it was; it requests the
    cross-signing keys, and returns their promise, exactly when the other
    party is the user's own account. *)
Theorem done_resolves env s p :
  _done (this s) = false → request (this s) = true →
  _resolve (this s) = Some p → promises s !! p = Some Pending →
  promises (exec (done env) s) !! p = Some (Resolved None)
  ∧ _done (this (exec (done env) s)) = true
  ∧ cancelled (this (exec (done env) s)) = cancelled (this s)
  ∧ sends (trace (exec (done env) s)) = sends (trace s)
  ∧ emits (trace (exec (done env) s)) = emits (trace s)
  ∧ notified (trace (exec (done env) s)) = S (notified (trace s))
  ∧ (if bool_decide (Some (getUserId env) = userId (this s))
     then outcome (done env) s = Normal (Some (length (promises s)))
          ∧ key_requests (trace (exec (done env) s))
            = key_requests (trace s) ++ [deviceId (this s)]
     else outcome (done env) s = Normal None
          ∧ key_requests (trace (exec (done env) s)) = key_requests (trace s)).
Proof.
  destruct s as [[uid did st rq c d pr tm ex rv rj rs rjt sd] ps nt ar tr].
  cbn. intros -> -> -> Hp.
  pose proof (lookup_lt_Some _ _ _ Hp) as Hlt.
  js_crush; trace_simpl'; rewrite ?length_settle;
    repeat split; try done; try lia;
    try apply lookup_app_l_Some; by apply settle_pending.
Qed.

Lemma done_resolves_witness :
  promises (exec (done alice_sas) awaiting_key) !! 0%nat = Some (Resolved None)
  ∧ _done (this (exec (done alice_sas) awaiting_key)) = true.
Proof.
  destruct (done_resolves alice_sas awaiting_key 0 eq_refl eq_refl eq_refl eq_refl)
    as (H1 & H2 & _).
  split; [exact H1|exact H2].
Defined.

Lemma done_before_verify env s :
  _done (this s) = false → _resolve (this s) = None →
  (∃ m, outcome (done env) s = Throw (TypeError m))
  ∧ _done (this (exec (done env) s)) = false
  ∧ promises (exec (done env) s) = promises s
  ∧ key_requests (trace (exec (done env) s)) = key_requests (trace s)
  ∧ notified (trace (exec (done env) s))
    = (notified (trace s) + if request (this s) then 1 else 0)%nat.
Proof.
  destruct s as [[uid did st rq c d pr tm ex rv rj rs rjt sd] ps nt ar tr].
  cbn. intros -> ->.
  js_crush; trace_simpl'; repeat split; eauto.
Qed.

Lemma step_unverified env op s :
  op ≠ OpVerify → unverified (this s) → unverified (this (step env op s)).
Proof.
  unfold unverified.
  destruct s as [[uid did st rq c d pr tm ex rv rj rs rjt sd] ps nt ar tr].
  cbn. intros Hop (-> & -> & ->).
  destruct op; try done; js_crush; done.
Qed.

Lemma run_unverified env ops s :
  OpVerify ∉ ops → unverified (this s) → unverified (this (run env ops s)).
Proof.
  revert s. induction ops as [|op ops IH]; intros s Hv H; [done|].
  apply not_elem_of_cons in Hv as [Hop Hv].
  cbn. apply IH; [done|]. by apply step_unverified.
Qed.

(** X11: as long as [verify()] was never called, whatever else was,
    [done()] throws a [TypeError] (there is no resolve closure to call):
    the transaction does not become done, no promise is settled and no key
    request is started. *)
Theorem done_without_verify env uid did start req ops :
  OpVerify ∉ ops →
  (∃ m, outcome (done env) (run env ops (constructor uid did start req))
        = Throw (TypeError m))
  ∧ _done (this (exec (done env) (run env ops (constructor uid did start req)))) = false
  ∧ promises (exec (done env) (run env ops (constructor uid did start req)))
    = promises (run env ops (constructor uid did start req))
  ∧ key_requests (trace (exec (done env) (run env ops (constructor uid did start req))))
    = key_requests (trace (run env ops (constructor uid did start req))).
Proof.
  intros Hv.
  destruct (run_unverified env ops (constructor uid did start req) Hv)
    as (Hr & _ & Hd); [done|].
  destruct (done_before_verify env _ Hd Hr) as (H1 & H2 & H3 & H4 & _).
  done.
Qed.

Lemma done_without_verify_witness :
  _done (this (exec (done alice) (run alice [OpCancel (CauseError "user")]
                                    bob_transaction))) = false.
Proof.
  refine (proj1 (proj2 (done_without_verify alice (Some "@bob:example.org")
                          (Some "BOBDEVICE") None true
                          [OpCancel (CauseError "user")] _))).
  intros H. apply list_elem_of_singleton in H. discriminate H.
Defined.

(** ** [verify] *)

(** X12: the first [verify()] creates a pending promise, stores it with
    its two closures and returns it, sending nothing; when the class has a
    [_doVerification] hook that has not started, it starts the hook once
    and arms the transaction timer, and otherwise it touches neither. *)
Theorem verify_first_call env s :
  _promise (this s) = None →
  outcome (verify env) s = Normal (length (promises s))
  ∧ promises (exec (verify env) s) !! length (promises s) = Some Pending
  ∧ _promise (this (exec (verify env) s)) = Some (length (promises s))
  ∧ _resolve (this (exec (verify env) s)) = Some (length (promises s))
  ∧ _reject (this (exec (verify env) s)) = Some (length (promises s))
  ∧ sends (trace (exec (verify env) s)) = sends (trace s)
  ∧ (if hasDoVerification env && negb (_started (this s))
     then hook_starts (trace (exec (verify env) s)) = S (hook_starts (trace s))
          ∧ _started (this (exec (verify env) s)) = true
          ∧ _transactionTimeoutTimer (this (exec (verify env) s)) = Some (next_timer s)
          ∧ next_timer s ∈ armed (exec (verify env) s)
     else hook_starts (trace (exec (verify env) s)) = hook_starts (trace s)
          ∧ armed (exec (verify env) s) = armed s
          ∧ _transactionTimeoutTimer (this (exec (verify env) s))
            = _transactionTimeoutTimer (this s)).
Proof.
  destruct s as [[uid did st rq c d pr tm ex rv rj rs rjt sd] ps nt ar tr].
  cbn. intros ->.
  js_crush; trace_simpl; rewrite ?lookup_snoc; repeat case_decide;
    repeat split; try done; try lia; apply list_elem_of_here.
Qed.

Lemma verify_first_call_witness :
  outcome (verify alice_sas) bob_transaction = Normal 0%nat
  ∧ promises (exec (verify alice_sas) bob_transaction) !! 0%nat = Some Pending.
Proof.
  destruct (verify_first_call alice_sas bob_transaction eq_refl) as (H1 & H2 & _).
  split; [exact H1|exact H2].
Defined.

(** X13: a [cancel()] that comes before [verify()] stores an already
    rejected promise, rejected with the cause as given unless it is an
    event, and a later [verify()] returns that promise and changes
    nothing: no hook is started and no timer armed. *)
Theorem verify_after_early_cancel env e s :
  _promise (this s) = None → _done (this s) = false →
  ∃ c, promises (exec (cancel env e) s) !! length (promises s) = Some (Rejected c)
       ∧ ((∀ ev, e ≠ CauseEvent ev) → c = e)
       ∧ verify env (exec (cancel env e) s)
         = (Normal (length (promises s)), exec (cancel env e) s).
Proof.
  destruct s as [[uid did st rq c d pr tm ex rv rj rs rjt sd] ps nt ar tr].
  cbn. intros -> ->.
  js_crush; eexists; rewrite lookup_snoc, decide_True by done;
    (split; [reflexivity|]); (split; [|done]);
    intros Hev; try done; by destruct (Hev _ eq_refl).
Qed.

Lemma verify_after_early_cancel_witness :
  verify alice_sas (exec (cancel alice_sas (CauseError "user")) bob_transaction)
  = (Normal 0%nat, exec (cancel alice_sas (CauseError "user")) bob_transaction).
Proof.
  destruct (verify_after_early_cancel alice_sas (CauseError "user") bob_transaction
              eq_refl eq_refl) as (c & _ & _ & H).
  exact H.
Defined.

(** ** [handleEvent] *)

(** X14: when the awaited event arrives on a transaction that is not
    done, [handleEvent] resolves the waiter with that event, clears the
    expectation and the reject handle, sends and emits nothing, and
    replaces the transaction timer by a new one; an awaited
    [m.key.verification.done] is left to [done()] and changes nothing. *)
Theorem handleEvent_matched env e s t w :
  _done (this s) = false → _expectedEvent (this s) = Some t →
  getType e = t → _resolveEvent (this s) = Some w →
  promises s !! w = Some Pending →
  (t = done_type → handleEvent env e s = (Normal tt, s))
  ∧ (t ≠ done_type →
     outcome (handleEvent env e) s = Normal tt
     ∧ promises (exec (handleEvent env e) s) !! w = Some (Resolved (Some e))
     ∧ _expectedEvent (this (exec (handleEvent env e) s)) = None
     ∧ _rejectEvent (this (exec (handleEvent env e) s)) = None
     ∧ _done (this (exec (handleEvent env e) s)) = false
     ∧ cancelled (this (exec (handleEvent env e) s)) = cancelled (this s)
     ∧ sends (trace (exec (handleEvent env e) s)) = sends (trace s)
     ∧ emits (trace (exec (handleEvent env e) s)) = emits (trace s)
     ∧ _transactionTimeoutTimer (this (exec (handleEvent env e) s)) = Some (next_timer s)
     ∧ next_timer s ∈ armed (exec (handleEvent env e) s)
     ∧ (∀ h, _transactionTimeoutTimer (this s) = Some h → h ≠ next_timer s →
             h ∉ armed (exec (handleEvent env e) s))).
Proof.
  destruct s as [[uid did st rq c d pr tm ex rv rj rs rjt sd] ps nt ar tr].
  cbn. intros -> -> <- -> Hp. split.
  - intros Ht. js_unfold. cbn. rewrite bool_decide_eq_true_2 by done.
    by rewrite bool_decide_eq_true_2 by (by rewrite Ht).
  - intros Ht. js_unfold. cbn. rewrite bool_decide_eq_true_2 by done.
    rewrite bool_decide_eq_false_2 by congruence. cbn.
    destruct tm as [h0|]; cbn; trace_simpl; repeat split; try done;
      try (by apply settle_pending); try apply list_elem_of_here.
    intros h [= <-] Hne. rewrite not_elem_of_cons, list_elem_of_filter.
    split; [done|]. by intros [? _].
Qed.

Lemma handleEvent_matched_witness :
  promises (exec (handleEvent alice_sas (event_of_type key_type)) awaiting_key) !! 1%nat
  = Some (Resolved (Some (event_of_type key_type)))
  ∧ _expectedEvent (this (exec (handleEvent alice_sas (event_of_type key_type))
                            awaiting_key)) = None.
Proof.
  assert (key_type ≠ done_type) as Hne by discriminate.
  destruct (proj2 (handleEvent_matched alice_sas (event_of_type key_type)
                     awaiting_key key_type 1 eq_refl eq_refl eq_refl eq_refl eq_refl)
              Hne) as (_ & H2 & H3 & _).
  split; [exact H2|exact H3].
Defined.

(** X15: while no event is awaited, an event of any type other than
    [m.key.verification.cancel] changes nothing: a replayed or early
    message is ignored, not treated as a protocol violation. *)
Theorem handleEvent_replay env e s :
  truthy (_expectedEvent (this s)) = false →
  getType e ≠ "" → getType e ≠ cancel_type →
  handleEvent env e s = (Normal tt, s).
Proof.
  intros Ht Hne Hc. js_unfold.
  destruct (_done (this s)); [done|].
  rewrite bool_decide_eq_false_2.
  - apply String.eqb_neq in Hc. by rewrite Hc, Ht.
  - intros Heq. rewrite <- Heq in Ht. cbn in Ht.
    apply negb_false_iff, String.eqb_eq in Ht. done.
Qed.

Lemma handleEvent_replay_witness :
  handleEvent alice_sas (event_of_type key_type)
    (exec (handleEvent alice_sas (event_of_type key_type)) awaiting_key)
  = (Normal tt, exec (handleEvent alice_sas (event_of_type key_type)) awaiting_key).
Proof.
  apply handleEvent_replay.
  - reflexivity.
  - discriminate.
  - discriminate.
Defined.

(** ** What no call changes *)

(** X16: no call changes the user id, the device id or the request of a
    transaction; the start event changes only when [switchStartEvent] is
    given an event the subclass accepts while no waiter can be rejected,
    and then becomes that event; so only [switchStartEvent] can change
    what [initiatedByMe] answers. *)
Theorem identity_kept env op s :
  userId (this (step env op s)) = userId (this s)
  ∧ deviceId (this (step env op s)) = deviceId (this s)
  ∧ request (this (step env op s)) = request (this s)
  ∧ (startEvent (this (step env op s)) ≠ startEvent (this s) →
     ∃ e, op = OpSwitchStartEvent e ∧ canSwitchStartEvent env e = true
          ∧ _rejectEvent (this s) = None
          ∧ startEvent (this (step env op s)) = Some e)
  ∧ (initiatedByMe env (this (step env op s)) ≠ initiatedByMe env (this s) →
     ∃ e, op = OpSwitchStartEvent e).
Proof.
  destruct op; js_crush; repeat split; try done; eauto.
Qed.

Lemma identity_kept_witness :
  ∃ e, OpSwitchStartEvent (event_of_type key_type) = OpSwitchStartEvent e
       ∧ canSwitchStartEvent alice_sas e = true.
Proof.
  destruct (proj1 (proj2 (proj2 (proj2
              (identity_kept alice_sas (OpSwitchStartEvent (event_of_type key_type))
                 bob_transaction)))))
    as (e & H1 & H2 & _).
  - discriminate.
  - by exists e.
Defined.

(** ** The request is told once *)

Lemma step_notified_once env op s :
  implb (hook_call op) (_started (this s)) = true →
  notified_once s → notified_once (step env op s).
Proof.
  unfold notified_once.
  destruct s as [[uid did st rq c d pr tm ex rv rj rs rjt sd] ps nt ar tr].
  cbn. intros Hh (H1 & H2 & H3).
  destruct op; cbn in Hh; js_crush; trace_simpl';
    repeat split; try done; try lia; eauto;
    try (intros; simplify_eq; by (apply H2 || (destruct H1 as [? ?]; done) )).
Qed.

Lemma hooked_notified_once env ops s :
  hooked env ops s = true → notified_once s → notified_once (run env ops s).
Proof.
  revert s. induction ops as [|op ops IH]; intros s Hh H; [done|].
  cbn in Hh. apply andb_prop in Hh as [Hop Hh].
  cbn. apply IH; [done|]. by apply step_notified_once.
Qed.

(** X17: in every run in which only a started hook calls [done()], the
    request is told at most once that the verifier finished, and not
    before the transaction is done. *)
Theorem request_notified_once env uid did start req ops :
  hooked env ops (constructor uid did start req) = true →
  (notified (trace (run env ops (constructor uid did start req))) ≤ 1)%nat
  ∧ (_done (this (run env ops (constructor uid did start req))) = false →
     notified (trace (run env ops (constructor uid did start req))) = 0%nat).
Proof.
  intros Hh.
  destruct (hooked_notified_once env ops (constructor uid did start req) Hh)
    as (_ & H2 & H3); [|done].
  unfold notified_once, notified. cbn. repeat split; try done. lia.
Qed.

Lemma request_notified_once_witness :
  (notified (trace (run alice_sas [OpVerify; OpDone; OpDone] bob_transaction)) ≤ 1)%nat.
Proof.
  exact (proj1 (request_notified_once alice_sas (Some "@bob:example.org")
                  (Some "BOBDEVICE") None true [OpVerify; OpDone; OpDone] eq_refl)).
Defined.

(** ** Key identifiers *)

Lemma up_to_colon_free s : colon_free s = true → up_to_colon s = s.
Proof.
  induction s as [|c r IH]; cbn; [done|].
  destruct (Ascii.eqb c colon); cbn; [done|]. intros H. by rewrite IH.
Qed.

Lemma after_colon_free s : colon_free s = true ↔ after_colon s = None.
Proof.
  induction s as [|c r IH]; cbn; [done|].
  by destruct (Ascii.eqb c colon).
Qed.

Lemma after_colon_app a r :
  colon_free a = true → after_colon (a +:+ String colon r) = Some r.
Proof.
  induction a as [|c a IH]; intros H.
  - cbn. by rewrite ?Ascii.eqb_refl.
  - change (String c a +:+ String colon r) with (String c (a +:+ String colon r)).
    cbn in *. destruct (Ascii.eqb c colon); cbn in *; [done|]. by apply IH.
Qed.

(** X18: the device id [_verifyKeys] reads off a key identifier,
    [keyId.split(':', 2)[1]]: for [algorithm:device] it is [device]; what
    follows a second colon is dropped; it is undefined exactly when the
    identifier has no colon; and it never contains a colon. *)
Theorem split_colon_second_spec :
  (∀ algorithm device,
     colon_free algorithm = true → colon_free device = true →
     split_colon_second (algorithm +:+ ":" +:+ device) = Some device)
  ∧ (∀ algorithm device rest,
       colon_free algorithm = true → colon_free device = true →
       split_colon_second (algorithm +:+ ":" +:+ device +:+ ":" +:+ rest) = Some device)
  ∧ (∀ keyId, colon_free keyId = true ↔ split_colon_second keyId = None)
  ∧ (∀ keyId device, split_colon_second keyId = Some device → colon_free device = true).
Proof.
  unfold split_colon_second. repeat split.
  - intros a d Ha Hd. change (":" +:+ d) with (String colon d).
    rewrite after_colon_app by done. cbn. by rewrite up_to_colon_free.
  - intros a d r Ha Hd. change (":" +:+ d +:+ ":" +:+ r) with (String colon (d +:+ String colon r)).
    rewrite after_colon_app by done. cbn. f_equal.
    clear Ha. induction d as [|c d IH].
    + cbn. by rewrite ?Ascii.eqb_refl.
    + change (String c d +:+ String colon r) with (String c (d +:+ String colon r)).
      cbn in *. destruct (Ascii.eqb c colon); cbn in *; [done|]. by rewrite IH.
  - intros H. apply after_colon_free in H. by rewrite H.
  - intros H. apply after_colon_free. by destruct (after_colon keyId).
  - intros keyId d. destruct (after_colon keyId) as [r|]; cbn; [|done].
    intros [= <-]. clear keyId.
    induction r as [|c r IH]; cbn; [done|].
    destruct (Ascii.eqb c colon) eqn:E; cbn; [done|]. by rewrite E.
Qed.

Lemma split_colon_second_spec_witness :
  split_colon_second ("ed25519" +:+ ":" +:+ "DEV1" +:+ ":" +:+ "rest") = Some "DEV1".
Proof.
  apply (proj1 (proj2 split_colon_second_spec)); reflexivity.
Defined.

(** ** The order of effects in [_verifyKeys] *)

Section VerifyKeysOrder.

Context {DeviceInfo KeyInfo : Type}.
Context (getStoredDevice : string → option string → Completion (option DeviceInfo)).
Context (getStoredCrossSigningForUser : string → Completion (option IdValue)).
Context (fromStorage : list (string * option string) → option string
                       → Completion DeviceInfo).
Context (verifier : string → DeviceInfo → KeyInfo → option Cause).
Context (setDeviceVerified : string → option string → option Cause).

Local Abbreviation verify_each'' :=
  (verify_each getStoredDevice getStoredCrossSigningForUser fromStorage verifier).
Local Abbreviation _verifyKeys'' :=
  (_verifyKeys getStoredDevice getStoredCrossSigningForUser fromStorage verifier
     setDeviceVerified).
Local Abbreviation find_device'' :=
  (find_device getStoredDevice getStoredCrossSigningForUser fromStorage).
Local Abbreviation recorded'' :=
  (recorded getStoredDevice getStoredCrossSigningForUser fromStorage).
Local Abbreviation first_failure'' :=
  (first_failure getStoredDevice getStoredCrossSigningForUser fromStorage verifier).
Local Abbreviation mark_each'' := (mark_each setDeviceVerified).
Local Abbreviation attempted'' := (attempted setDeviceVerified).

Lemma mark_each_trace userId ds (t : list (@KeyEffect DeviceInfo KeyInfo)) :
  (mark_each'' userId ds t).2
  = t ++ (SetDeviceVerified userId <$> attempted'' userId ds).
Proof.
  revert t. induction ds as [|d rest IH]; intros t.
  - cbn. by rewrite app_nil_r.
  - cbn [mark_each attempted]. js_unfold.
    destruct (setDeviceVerified userId d) as [e|]; cbn; [done|].
    by rewrite IH, <- app_assoc.
Qed.

(** Every verifier call is for a key of the batch and against the device
    found for it. *)
Lemma verify_each_calls userId keys :
  ∀ vd (t : list (@KeyEffect DeviceInfo KeyInfo)) k d i,
    VerifierCalled k d i ∈ (verify_each'' userId keys vd t).2 →
    VerifierCalled k d i ∈ t
    ∨ ((k, i) ∈ keys ∧ find_device'' userId k = Normal (Some d)).
Proof.
  induction keys as [|[keyId keyInfo] rest IH]; intros vd t k d i.
  - cbn. by left.
  - rewrite verify_each_cons.
    destruct (find_device'' userId keyId) as [[device|]|e] eqn:Hdev.
    + unfold call_verifier. js_unfold.
      destruct (verifier keyId device keyInfo) as [e|]; cbn.
      * rewrite elem_of_app, list_elem_of_singleton.
        intros [H|[= -> -> ->]]; [by left|right].
        split; [apply list_elem_of_here|done].
      * intros H. apply IH in H as [H|[H1 H2]].
        -- apply elem_of_app in H as [H|H]; [by left|].
           apply list_elem_of_singleton in H. injection H as -> -> ->.
           right. split; [apply list_elem_of_here|done].
        -- right. split; [by apply list_elem_of_further|done].
    + js_unfold. cbn. intros H. apply IH in H as [H|[H1 H2]].
      * apply elem_of_app in H as [H|H]; [by left|].
        by apply list_elem_of_singleton in H.
      * right. split; [by apply list_elem_of_further|done].
    + js_unfold. cbn. by left.
Qed.

Lemma attempted_prefix userId ds : attempted'' userId ds `prefix_of` ds.
Proof.
  induction ds as [|d rest IH]; cbn; [done|].
  destruct (setDeviceVerified userId d).
  - by exists rest.
  - by apply prefix_cons.
Qed.

(** X19: in [_verifyKeys] every device is marked after the last verifier
    call and the last warning; the devices marked are a prefix of the
    recorded ones, and one is marked only if no lookup failed and the
    verifier accepted every key that resolved; and the verifier is only
    ever called for a key of the batch, against the device found for
    it. *)
Theorem verifyKeys_order userId keys :
  (∃ t1 ds,
     (_verifyKeys'' userId keys []).2 = t1 ++ (SetDeviceVerified userId <$> ds)
     ∧ marks t1 = []
     ∧ ds `prefix_of` recorded'' userId keys
     ∧ (ds ≠ [] → first_failure'' userId keys = None))
  ∧ (∀ k d i, VerifierCalled k d i ∈ (_verifyKeys'' userId keys []).2 →
              (k, i) ∈ keys ∧ find_device'' userId k = Normal (Some d)).
Proof.
  pose proof (verify_each_spec getStoredDevice getStoredCrossSigningForUser
                fromStorage verifier userId keys [] []) as [Hm Hv].
  pose proof (verify_each_calls userId keys [] []) as Hc.
  unfold _verifyKeys. js_unfold.
  destruct (verify_each'' userId keys [] []) as [[vd|e] t1] eqn:Hrun; cbn in *.
  - destruct (first_failure'' userId keys) as [e|] eqn:Hf; [done|].
    destruct Hv as [[= ->] _]. cbn.
    case_bool_decide as Hlen.
    + cbn. split.
      * exists t1, []. cbn. rewrite app_nil_r. repeat split; try done.
        apply prefix_nil.
      * intros k d i H. destruct (Hc k d i H) as [Hin|?]; [|done].
        by apply elem_of_nil in Hin.
    + rewrite mark_each_trace. split.
      * exists t1, (attempted'' userId (recorded'' userId keys)).
        repeat split; try done. apply attempted_prefix.
      * intros k d i H. apply elem_of_app in H as [H|H].
        -- destruct (Hc k d i H) as [Hin|?]; [|done]. by apply elem_of_nil in Hin.
        -- apply list_elem_of_fmap in H as (? & ? & _). done.
  - split.
    + exists t1, []. cbn. rewrite app_nil_r. repeat split; try done.
      apply prefix_nil.
    + intros k d i H. destruct (Hc k d i H) as [Hin|?]; [|done].
      by apply elem_of_nil in Hin.
Qed.

End VerifyKeysOrder.

Lemma verifyKeys_order_witness :
  find_device bob_devices bob_cross_signing synthesised "@bob:example.org"
    "ed25519:DEV1" = Normal (Some "device DEV1").
Proof.
  refine (proj2 (proj2 (verifyKeys_order bob_devices bob_cross_signing synthesised
                          mac_verifier marking_works "@bob:example.org"
                          [("ed25519:DEV1", "good mac")])
                   "ed25519:DEV1" "device DEV1" "good mac" _)).
  vm_compute. apply list_elem_of_here.
Defined.

(** ** [errors.js] *)

Lemma string_length_app a s :
  String.length (a +:+ s) = (String.length a + String.length s)%nat.
Proof.
  induction a as [|c a IH]; [done|].
  change (String c a +:+ s) with (String c (a +:+ s)). cbn. by rewrite IH.
Qed.

Lemma string_app_inv_tail a b s : a +:+ s = b +:+ s → a = b.
Proof.
  revert b. induction a as [|c a IH]; intros [|c' b] H.
  - done.
  - apply (f_equal String.length) in H.
    change ("" +:+ s) with s in H.
    change (String c' b +:+ s) with (String c' (b +:+ s)) in H.
    cbn in H. rewrite string_length_app in H. lia.
  - apply (f_equal String.length) in H.
    change ("" +:+ s) with s in H.
    change (String c a +:+ s) with (String c (a +:+ s)) in H.
    cbn in H. rewrite string_length_app in H. lia.
  - change (String c a +:+ s) with (String c (a +:+ s)) in H.
    change (String c' b +:+ s) with (String c' (b +:+ s)) in H.
    injection H as -> H. f_equal. by apply IH.
Qed.


